(** * Transaction-reliability layer of the Solana connector

    Shallow embedding of [SolanaController] (priority-fee estimation,
    confirmation lookups, submit-and-retry loop) and of the balance-delta
    helpers of [MeteoraController].  The repository carries two revisions of
    [SolanaController]; they are embedded side by side:
    - module [Rev1]: the class in [unnamed/part_001];
    - module [Rev2]: the second class in [unnamed/part_002].

    Numbers of the JSON-RPC responses (fees, block heights, lamports) are
    integers on the chain and are modelled as [Z], each standing for the
    double that [JSON.parse] produces.  For such a non-negative [m],
    [m * 0.25] and [m * 0.5] are exact in binary floating point, so
    [Math.floor(m * 0.25)] and [Math.floor(m * 0.5)] are [m / 4] and
    [m / 2]; [m * 0.75] is the exact [3m/4] rounded to 53 significant bits,
    ties to even, which [three_quarters] writes out. *)

From Stdlib Require Import ZArith List String Bool Lia QArith Permutation Sorted.
Import ListNotations.
Open Scope Z_scope.

(** ** Shared data model *)

(** [FeeEstimates] *)
Record FeeEstimates := mkFees {
  low : Z; medium : Z; high : Z; extreme : Z }.

(** Body of the JSON-RPC request ([RequestPayload]) and the endpoint it is
    posted to. *)
Record RequestPayload := mkPayload {
  method : string;
  params : list (list string);
  id : Z;
  jsonrpc : string }.

Record FeeRequest := mkFeeRequest {
  req_endpoint : string;
  req_payload : RequestPayload }.

(** Outcome of [fetch(endpoint, ...)] followed by [response.json()]:
    a non-OK HTTP status, a rejected promise (network or JSON parse error),
    or a parsed body whose [result] field is present (with the list of
    [prioritizationFee] values) or absent. *)
Inductive fee_resp :=
| FHttpError (status : Z)
| FFailure
| FBody (result : option (list Z)).

(** Errors raised by the code. *)
Inductive cause :=
| HttpStatus (status : Z)
| TxFailedWith (err : string)
| NetworkOrParse.

Inductive error :=
| Raw (c : cause)                   (* an error thrown and not wrapped *)
| ConfirmFailed (c : cause)         (* 'Failed to confirm transaction: ...' *)
| ConfirmByAddrFailed (c : cause)   (* '... using signatures: ...' *)
| SendFailed                        (* sendRawTransaction rejected *)
| Expired.                          (* '... within the valid block height range' *)

(** Result of an async computation: resolved, rejected, or (for the
    fuel-bounded embedding of a [while] loop) not finished. *)
Inductive res (A : Type) :=
| Ok (a : A)
| Throw (e : error)
| OutOfFuel.
Arguments Ok {A} a.
Arguments Throw {A} e.
Arguments OutOfFuel {A}.

(** [nonZeroFees.sort((a, b) => a - b)]: ascending numeric sort. *)
Fixpoint insert_asc (x : Z) (l : list Z) : list Z :=
  match l with
  | [] => [x]
  | y :: r => if x <=? y then x :: y :: r else y :: insert_asc x r
  end.

Fixpoint sort_asc (l : list Z) : list Z :=
  match l with
  | [] => []
  | x :: r => insert_asc x (sort_asc r)
  end.

(** [nonZeroFees[nonZeroFees.length - 1]] *)
Definition last_elem (l : list Z) : Z := last l 0.

(** [fees.filter((fee) => fee > 0)] *)
Definition nonZero (fees : list Z) : list Z := filter (fun f => 0 <? f) fees.

(** [x] rounded to a multiple of [2^s], ties to the even multiple; [x]
    itself when [s <= 0]. *)
Definition round_ne (x s : Z) : Z :=
  if s <=? 0 then x
  else
    let p := 2 ^ s in
    let down := (x / p) * p in
    let r := x mod p in
    if r * 2 <? p then down
    else if p <? r * 2 then down + p
    else if Z.even (x / p) then down else down + p.

(** [Math.floor(maxFee * 0.25)], [0.5], [0.75] for a non-negative integer
    [maxFee]: multiplying by 0.25 or 0.5 only changes the exponent; the
    product [maxFee * 0.75 = 3 * maxFee / 4] keeps 53 significant bits, so
    [3 * maxFee], of [Z.log2 (3 * maxFee) + 1] bits, is rounded to a
    multiple of [2^(Z.log2 (3 * maxFee) - 52)] before the division by 4,
    which is exact. *)
Definition quarter (m : Z) : Z := m / 4.
Definition half (m : Z) : Z := m / 2.
Definition three_quarters (m : Z) : Z :=
  round_ne (3 * m) (Z.log2 (3 * m) - 52) / 4.

Definition monotone (f : FeeEstimates) : Prop :=
  low f <= medium f /\ medium f <= high f /\ high f <= extreme f.

(** ** Confirmation lookups and the submission loop: shared model *)

(** Commitment levels as the code names them. *)
Inductive commitment := Processed | Confirmed | Finalized.

Definition commitment_eqb (a b : commitment) : bool :=
  match a, b with
  | Processed, Processed | Confirmed, Confirmed | Finalized, Finalized => true
  | _, _ => false
  end.

(** [status.confirmationStatus === 'confirmed' ||
      status.confirmationStatus === 'finalized'] *)
Definition is_confirmed_or_finalized (c : option commitment) : bool :=
  match c with
  | Some Confirmed | Some Finalized => true
  | _ => false
  end.

(** [SignatureStatus]: the [err] field ([null] is [None]) and the
    [confirmationStatus] field (possibly absent). *)
Record SignatureStatus := mkStatus {
  st_err : option string;
  st_confirmationStatus : option commitment }.

(** Outcome of the [getSignatureStatuses] request: non-OK HTTP status,
    rejected [fetch] or [json()], or a body, with [data.result.value[0]]
    present or not. *)
Inductive direct_resp :=
| DHttpError (status : Z)
| DFailure
| DResult (value0 : option SignatureStatus).

(** An entry of the [getSignaturesForAddress] result. *)
Record SigEntry := mkEntry {
  se_signature : string;
  se_err : option string;
  se_confirmationStatus : option commitment }.

Inductive addr_resp :=
| AHttpError (status : Z)
| AFailure
| AResult (result : option (list SigEntry)).

(** [sendRawTransaction] resolves to a signature or rejects. *)
Inductive send_resp :=
| SendOk (signature : string)
| SendErr.

(** The parts of a [Transaction] this layer touches: its instruction list
    (the caller's instructions are opaque) and [lastValidBlockHeight]
    ([undefined] is [None]). *)
Inductive instruction :=
| CallerInstruction (n : nat)
| SetComputeUnitPrice (microLamports : Z).

Record Transaction := mkTx {
  instructions : list instruction;
  lastValidBlockHeight : option Z }.

(** [tx.instructions.push(ix)] *)
Definition push_instruction (tx : Transaction) (ix : instruction) : Transaction :=
  mkTx (instructions tx ++ [ix]) (lastValidBlockHeight tx).

Definition set_lastValidBlockHeight (tx : Transaction) (h : Z) : Transaction :=
  mkTx (instructions tx) (Some h).

(** The network as seen by the code: the answer to the [k]-th call of each
    RPC, which may depend on the call's arguments. *)
Record Env := mkEnv {
  env_fee : FeeRequest -> fee_resp;
  env_height : nat -> Z;
  env_send : nat -> Transaction -> send_resp;
  env_direct : nat -> option string -> direct_resp;
  env_addr : nat -> string -> option string -> addr_resp }.

(** Observable RPC calls, with the answer each one got. *)
Inductive event :=
| EvHeight (h : Z)
| EvSend (tx : Transaction) (r : send_resp)
| EvDirect (signature : option string) (r : direct_resp)
| EvByAddr (address : string) (signature : option string) (r : addr_resp).

(** Call counters and the trace (oldest call first). *)
Record State := mkState {
  n_height : nat;
  n_send : nat;
  n_direct : nat;
  n_addr : nat;
  trace : list event }.

Definition init_state : State := mkState 0 0 0 0 [].

(** The async computations of the controller: reader of the network,
    state of the calls made, and rejection. *)
Definition M (A : Type) : Type := Env -> State -> res A * State.

Definition ret {A} (a : A) : M A := fun _ s => (Ok a, s).

Definition throw {A} (err : error) : M A := fun _ s => (Throw err, s).

Definition out_of_fuel {A} : M A := fun _ s => (OutOfFuel, s).

Definition bind {A B} (m : M A) (k : A -> M B) : M B :=
  fun e s =>
    match m e s with
    | (Ok a, s') => k a e s'
    | (Throw err, s') => (Throw err, s')
    | (OutOfFuel, s') => (OutOfFuel, s')
    end.

Notation "x <- m ;; k" := (bind m (fun x => k))
  (at level 61, m at next level, right associativity).

(** A pure computation lifted into [M]. *)
Definition lift {A} (r : res A) : M A := fun _ s => (r, s).

(** [await this.connection.getBlockHeight()] *)
Definition getBlockHeight : M Z :=
  fun e s =>
    let h := env_height e (n_height s) in
    (Ok h, mkState (S (n_height s)) (n_send s) (n_direct s) (n_addr s)
             (trace s ++ [EvHeight h])).

(** [await this.connection.sendRawTransaction(tx.serialize(), ...)] *)
Definition sendRawTransaction (tx : Transaction) : M string :=
  fun e s =>
    let r := env_send e (n_send s) tx in
    let s' := mkState (n_height s) (S (n_send s)) (n_direct s) (n_addr s)
                (trace s ++ [EvSend tx r]) in
    match r with
    | SendOk sig => (Ok sig, s')
    | SendErr => (Throw SendFailed, s')
    end.

(** The [fetch] of [getSignatureStatuses] in [confirmTransaction]. *)
Definition fetchSignatureStatus (signature : option string) : M direct_resp :=
  fun e s =>
    let r := env_direct e (n_direct s) signature in
    (Ok r, mkState (n_height s) (n_send s) (S (n_direct s)) (n_addr s)
             (trace s ++ [EvDirect signature r])).

(** The [fetch] of [getSignaturesForAddress] in
    [confirmTransactionByAddress]. *)
Definition fetchSignaturesForAddress (address : string)
  (signature : option string) : M addr_resp :=
  fun e s =>
    let r := env_addr e (n_addr s) address signature in
    (Ok r, mkState (n_height s) (n_send s) (n_direct s) (S (n_addr s))
             (trace s ++ [EvByAddr address signature r])).

(** [blockheight < lastValidBlockHeight]; a comparison with [undefined]
    is false. *)
Definition lt_opt (h : Z) (lv : option Z) : bool :=
  match lv with Some v => h <? v | None => false end.

(** ** Revision 1: [unnamed/part_001] *)
Module Rev1.

Definition DEFAULT_FEES : FeeEstimates := mkFees 10000 20000 30000 40000.

(** The request built by [fetchEstimatePriorityFees]: when [account] is
    defined the params hold a fixed, hardcoded account. *)
Definition fee_request (account : option string) (endpoint : string)
  : FeeRequest :=
  let params := match account with
                | Some _ => [["GASeo1wEK3rWwep6fsAt212Jw9zAYguDY5qUwTnyZ4RH"%string]]
                | None => []
                end in
  mkFeeRequest endpoint
    (mkPayload "getRecentPrioritizationFees" params 1 "2.0").

(** The tier computation on [data.result]'s fees. *)
Definition tiers (fees : list Z) : FeeEstimates :=
  let nonZeroFees := sort_asc (nonZero fees) in
  let '(mkFees low medium high extreme) := DEFAULT_FEES in
  if 0 <? Z.of_nat (List.length nonZeroFees) then
    let maxFee := last_elem nonZeroFees in
    mkFees (Z.max (quarter maxFee) low) (Z.max (half maxFee) medium)
           (Z.max (three_quarters maxFee) high) (Z.max maxFee extreme)
  else mkFees low medium high extreme.

(** The body of the [try] block: [data.result.map] throws when [result] is
    absent. *)
Definition fee_try (r : fee_resp) : res FeeEstimates :=
  match r with
  | FHttpError _ => Ok DEFAULT_FEES
  | FFailure => Throw (Raw NetworkOrParse)
  | FBody None => Throw (Raw NetworkOrParse)
  | FBody (Some fees) => Ok (tiers fees)
  end.

(** [fetchEstimatePriorityFees]: the [catch] returns [DEFAULT_FEES]. *)
Definition fetchEstimatePriorityFees (fetch : FeeRequest -> fee_resp)
  (account : option string) (endpoint : string) : res FeeEstimates :=
  match fee_try (fetch (fee_request account endpoint)) with
  | Ok f => Ok f
  | Throw _ => Ok DEFAULT_FEES
  | OutOfFuel => OutOfFuel
  end.

(** What [confirmTransaction] makes of the [getSignatureStatuses]
    response: every error in the [try] block is rethrown wrapped. *)
Definition confirm_status (r : direct_resp) : res bool :=
  match r with
  | DHttpError code => Throw (ConfirmFailed (HttpStatus code))
  | DFailure => Throw (ConfirmFailed NetworkOrParse)
  | DResult None => Ok false
  | DResult (Some status) =>
      match st_err status with
      | Some err => Throw (ConfirmFailed (TxFailedWith err))
      | None => Ok (is_confirmed_or_finalized (st_confirmationStatus status))
      end
  end.

Definition confirmTransaction (signature : option string) : M bool :=
  r <- fetchSignatureStatus signature ;; lift (confirm_status r).

(** [data.result.find((entry) => entry.signature === signature)]; an
    [undefined] signature equals no entry's. *)
Definition find_entry (signature : option string) (l : list SigEntry)
  : option SigEntry :=
  match signature with
  | Some sg => find (fun en => String.eqb (se_signature en) sg) l
  | None => None
  end.

(** What [confirmTransactionByAddress] makes of the
    [getSignaturesForAddress] response. *)
Definition confirm_by_address (signature : option string) (r : addr_resp)
  : res bool :=
  match r with
  | AHttpError code => Throw (ConfirmByAddrFailed (HttpStatus code))
  | AFailure => Throw (ConfirmByAddrFailed NetworkOrParse)
  | AResult None => Ok false
  | AResult (Some l) =>
      match find_entry signature l with
      | None => Ok false
      | Some info =>
          match se_err info with
          | Some err => Throw (ConfirmByAddrFailed (TxFailedWith err))
          | None => Ok (is_confirmed_or_finalized (se_confirmationStatus info))
          end
      end
  end.

Definition confirmTransactionByAddress (address : string)
  (signature : option string) : M bool :=
  r <- fetchSignaturesForAddress address signature ;;
  lift (confirm_by_address signature r).

(** The [while (blockheight < lastValidBlockHeight)] loop of
    [sendAndConfirmTransaction] and the check after it, with [fuel] bounding
    the number of iterations.  [payer] is
    [signers[0].publicKey.toBase58()]; [tx.sign] and the 500 ms sleep have no
    observable effect here. *)
Fixpoint retry_loop (fuel : nat) (payer : string) (tx : Transaction)
  (lastValid : Z) (blockheight : Z) (signature : option string)
  : M (option string) :=
  match fuel with
  | O => out_of_fuel
  | S fuel' =>
      if blockheight <? lastValid then
        sg <- sendRawTransaction tx ;;
        c1 <- confirmTransaction (Some sg) ;;
        if c1 then ret (Some sg) else
        c2 <- confirmTransactionByAddress payer (Some sg) ;;
        if c2 then ret (Some sg) else
        bh <- getBlockHeight ;;
        retry_loop fuel' payer tx lastValid bh (Some sg)
      else
        (* !(await confirmTransaction) && !(await confirmTransactionByAddress) *)
        c1 <- confirmTransaction signature ;;
        if c1 then ret signature else
        c2 <- confirmTransactionByAddress payer signature ;;
        if c2 then ret signature else
        throw Expired
  end.

Definition fetchFees (account : option string) (endpoint : string)
  : M FeeEstimates :=
  fun e s => (fetchEstimatePriorityFees (env_fee e) account endpoint, s).

(** [sendAndConfirmTransaction(tx, signers, accountToGetPriorityFees)] *)
Definition sendAndConfirmTransaction (fuel : nat) (tx : Transaction)
  (payer : string) (accountToGetPriorityFees : string) (endpoint : string)
  : M (option string) :=
  fees <- fetchFees (Some accountToGetPriorityFees) endpoint ;;
  let tx1 := push_instruction tx (SetComputeUnitPrice (high fees)) in
  blockheight <- getBlockHeight ;;
  let lastValid := blockheight + 100 in
  let tx2 := set_lastValidBlockHeight tx1 lastValid in
  retry_loop fuel payer tx2 lastValid blockheight None.

End Rev1.

(** ** Revision 2: second class of [unnamed/part_002] *)
Module Rev2.

Definition fee_request (account : option string) (endpoint : string)
  : FeeRequest :=
  let params := match account with Some a => [[a]] | None => [] end in
  mkFeeRequest endpoint
    (mkPayload "getRecentPrioritizationFees" params 1 "2.0").

Definition tiers (fees : list Z) : FeeEstimates :=
  let nonZeroFees := sort_asc (nonZero fees) in
  if 0 <? Z.of_nat (List.length nonZeroFees) then
    let maxFee := last_elem nonZeroFees in
    mkFees (quarter maxFee) (half maxFee) (three_quarters maxFee) maxFee
  else mkFees 0 0 0 0.

Definition fee_try (r : fee_resp) : res FeeEstimates :=
  match r with
  | FHttpError _ => Ok (mkFees 0 0 0 8000)
  | FFailure => Throw (Raw NetworkOrParse)
  | FBody None => Throw (Raw NetworkOrParse)
  | FBody (Some fees) => Ok (tiers fees)
  end.

Definition fetchEstimatePriorityFees (fetch : FeeRequest -> fee_resp)
  (account : option string) (endpoint : string) : res FeeEstimates :=
  match fee_try (fetch (fee_request account endpoint)) with
  | Ok f => Ok f
  | Throw _ => Ok (mkFees 2000 4000 6000 8000)
  | OutOfFuel => OutOfFuel
  end.

(** [confirmTransaction(signature, commitment)]: the status must equal
    the requested commitment. *)
Definition confirm_status (commitment : commitment) (r : direct_resp)
  : res bool :=
  match r with
  | DHttpError code => Throw (ConfirmFailed (HttpStatus code))
  | DFailure => Throw (ConfirmFailed NetworkOrParse)
  | DResult None => Ok false
  | DResult (Some status) =>
      match st_err status with
      | Some err => Throw (ConfirmFailed (TxFailedWith err))
      | None =>
          Ok (match st_confirmationStatus status with
              | Some c => commitment_eqb c commitment
              | None => false
              end)
      end
  end.

Definition confirmTransaction (commitment : commitment)
  (signature : option string) : M bool :=
  r <- fetchSignatureStatus signature ;; lift (confirm_status commitment r).

(** The loop of this revision: [blockheight] is read once before it and
    never refreshed inside it. *)
Fixpoint retry_loop (fuel : nat) (commitment : commitment) (tx : Transaction)
  (lastValid : option Z) (blockheight : Z) (signature : option string)
  : M (option string) :=
  match fuel with
  | O => out_of_fuel
  | S fuel' =>
      if lt_opt blockheight lastValid then
        sg <- sendRawTransaction tx ;;
        c <- confirmTransaction commitment (Some sg) ;;
        if c then ret (Some sg) else
        retry_loop fuel' commitment tx lastValid blockheight (Some sg)
      else
        c <- confirmTransaction commitment signature ;;
        if c then ret signature else
        throw Expired
  end.

Definition fetchFees (account : option string) (endpoint : string)
  : M FeeEstimates :=
  fun e s => (fetchEstimatePriorityFees (env_fee e) account endpoint, s).

(** [sendAndConfirmTransaction(tx, accountToGetPriorityFees, commitment)] *)
Definition sendAndConfirmTransaction (fuel : nat) (tx : Transaction)
  (accountToGetPriorityFees : string) (commitment : commitment)
  (endpoint : string) : M (option string) :=
  fees <- fetchFees (Some accountToGetPriorityFees) endpoint ;;
  let tx1 := push_instruction tx (SetComputeUnitPrice (medium fees)) in
  blockheight <- getBlockHeight ;;
  let lastValid := lastValidBlockHeight tx1 in
  retry_loop fuel commitment tx1 lastValid blockheight None.

End Rev2.


(** ** Balance deltas: [MeteoraController] in
    [src/connectors/meteora/meteora.controller.ts] *)
Module Meteora.

Open Scope Q_scope.

(** [uiTokenAmount.uiAmount] of a parsed token balance ([null] is [None]). *)
Record TokenBalance := mkTokenBalance {
  tb_mint : string;
  tb_owner : string;
  tb_uiAmount : option Q }.

(** [txDetails.meta]: absent fields are [None]. *)
Record Meta := mkMeta {
  preBalances : option (list Z);
  postBalances : option (list Z);
  preTokenBalances : option (list TokenBalance);
  postTokenBalances : option (list TokenBalance);
  meta_fee : option Z }.

Record ParsedTransaction := mkParsedTx { meta : option Meta }.

(** [balanceChange] is [None] when the code computes [NaN]. *)
Record BalanceChangeAndFee := mkChange {
  balanceChange : option Q;
  fee : Q }.

Definition LAMPORTS_PER_SOL : Z := 1000000000.

(** The retry loop over [getParsedTransaction]: [attempts k] is the answer
    to the [k]-th call, [None] when it is [null] or rejects.  The loop makes
    at most 20 calls. *)
Fixpoint poll_from (attempts : nat -> option ParsedTransaction)
  (attempt : nat) (left : nat) : option ParsedTransaction :=
  match left with
  | O => None
  | S left' =>
      match attempts attempt with
      | Some tx => Some tx
      | None => poll_from attempts (S attempt) left'
      end
  end.

Definition poll (attempts : nat -> option ParsedTransaction)
  : option ParsedTransaction :=
  poll_from attempts 0 20.

(** [(txDetails.meta?.fee || 0) / 1_000_000_000] *)
Definition fee_in_sol (tx : ParsedTransaction) : Q :=
  match meta tx with
  | Some m => match meta_fee m with
              | Some f => inject_Z f / inject_Z LAMPORTS_PER_SOL
              | None => 0
              end
  | None => 0
  end.

Definition or_empty {A} (o : option (list A)) : list A :=
  match o with Some l => l | None => [] end.

(** [balances.find((b) => b.mint === mint && b.owner === owner)
      ?.uiTokenAmount.uiAmount || 0] *)
Definition ui_amount (l : list TokenBalance) (mint owner : string) : Q :=
  match find (fun b => String.eqb (tb_mint b) mint && String.eqb (tb_owner b) owner) l with
  | Some b => match tb_uiAmount b with Some a => a | None => 0 end
  | None => 0
  end.

Definition extractTokenBalanceChangeAndFee
  (attempts : nat -> option ParsedTransaction) (mint owner : string)
  : BalanceChangeAndFee :=
  match poll attempts with
  | None => mkChange (Some 0) 0
  | Some tx =>
      let pre := match meta tx with Some m => or_empty (preTokenBalances m) | None => [] end in
      let post := match meta tx with Some m => or_empty (postTokenBalances m) | None => [] end in
      let preBalance := ui_amount pre mint owner in
      let postBalance := ui_amount post mint owner in
      mkChange (Some (postBalance - preBalance)) (fee_in_sol tx)
  end.

(** [Math.abs(postBalances[i] - preBalances[i]) / 1_000_000_000]; an index
    out of range reads [undefined] and gives [NaN]. *)
Definition extractAccountBalanceChangeAndFee
  (attempts : nat -> option ParsedTransaction) (accountIndex : nat)
  : BalanceChangeAndFee :=
  match poll attempts with
  | None => mkChange (Some 0) 0
  | Some tx =>
      let pre := match meta tx with Some m => or_empty (preBalances m) | None => [] end in
      let post := match meta tx with Some m => or_empty (postBalances m) | None => [] end in
      let change :=
        match nth_error post accountIndex, nth_error pre accountIndex with
        | Some a, Some b => Some (inject_Z (Z.abs (a - b)) / inject_Z LAMPORTS_PER_SOL)
        | _, _ => None
        end in
      mkChange change (fee_in_sol tx)
  end.

(** The same parsed transaction, with [meta.fee] replaced by [f]. *)
Definition with_fee (f : Z) (tx : ParsedTransaction) : ParsedTransaction :=
  match meta tx with
  | Some m => mkParsedTx (Some (mkMeta (preBalances m) (postBalances m)
                  (preTokenBalances m) (postTokenBalances m) (Some f)))
  | None => tx
  end.

End Meteora.

(** ** Properties of traces *)

(** Every [sendRawTransaction] is preceded by a [getBlockHeight] whose
    latest answer satisfies [below]. *)
Fixpoint sends_guarded (below : Z -> bool) (last_h : option Z)
  (tr : list event) : bool :=
  match tr with
  | [] => true
  | EvHeight h :: r => sends_guarded below (Some h) r
  | EvSend _ _ :: r =>
      match last_h with
      | Some h => below h && sends_guarded below last_h r
      | None => false
      end
  | _ :: r => sends_guarded below last_h r
  end.

(** The signature of the last successful broadcast in a trace. *)
Fixpoint last_sent (tr : list event) : option string :=
  match tr with
  | [] => None
  | EvSend _ (SendOk sg) :: r =>
      match last_sent r with Some s => Some s | None => Some sg end
  | _ :: r => last_sent r
  end.

(** The final answer and trace of a run from the initial state. *)
Definition run {A} (m : M A) (e : Env) : res A * State := m e init_state.

(** The latest [getBlockHeight] answer after a trace. *)
Definition height_after (o : option Z) (ev : event) : option Z :=
  match ev with EvHeight h => Some h | _ => o end.

Definition last_height (o : option Z) (tr : list event) : option Z :=
  fold_left height_after tr o.

(** The guard [sends_guarded] checks at one event. *)
Definition send_ok_at (below : Z -> bool) (o : option Z) (ev : event) : bool :=
  match ev with
  | EvSend _ _ => match o with Some h => below h | None => false end
  | _ => true
  end.

(** A [getBlockHeight] answer at which the loop guard [below] fails. *)
Definition height_fails (below : Z -> bool) (ev : event) : bool :=
  match ev with EvHeight h => negb (below h) | _ => false end.

(** What the check after the loop of [Rev1] does: [confirmTransaction] on
    [sg], then, if it resolved to false, [confirmTransactionByAddress];
    the result is [sg] when either resolves to true, the lookup's error when
    one rejects, and [Expired] when both resolve to false. *)
Definition final_check_rev1 (payer : string) (sg : option string)
  (post : list event) (r : res (option string)) : Prop :=
  exists rd,
    (post = [EvDirect sg rd] /\
     ((Rev1.confirm_status rd = Ok true /\ r = Ok sg) \/
      (exists err, Rev1.confirm_status rd = Throw err /\ r = Throw err))) \/
    (exists ra,
       post = [EvDirect sg rd; EvByAddr payer sg ra] /\
       Rev1.confirm_status rd = Ok false /\
       ((Rev1.confirm_by_address sg ra = Ok true /\ r = Ok sg) \/
        (Rev1.confirm_by_address sg ra = Ok false /\ r = Throw Expired) \/
        (exists err, Rev1.confirm_by_address sg ra = Throw err /\ r = Throw err))).

(** The same for [Rev2], whose check is [confirmTransaction] alone. *)
Definition final_check_rev2 (c : commitment) (sg : option string)
  (post : list event) (r : res (option string)) : Prop :=
  exists rd,
    post = [EvDirect sg rd] /\
    ((Rev2.confirm_status c rd = Ok true /\ r = Ok sg) \/
     (Rev2.confirm_status c rd = Ok false /\ r = Throw Expired) \/
     (exists err, Rev2.confirm_status c rd = Throw err /\ r = Throw err)).

(** The loop of [Rev1] left with a height at or above [lastValid]: then
    the check after it runs on the last broadcast signature; and [Expired]
    is raised only by that check, when both lookups resolved to false. *)
Definition expiry_spec_rev1 (payer : string) (lastValid : Z)
  (r : res (option string)) (tr : list event) : Prop :=
  (forall pre h post,
     tr = pre ++ EvHeight h :: post -> lastValid <= h -> r <> OutOfFuel ->
     final_check_rev1 payer (last_sent pre) post r /\ last_sent pre <> None) /\
  (r = Throw Expired ->
   exists pre h rd ra,
     tr = pre ++ [EvHeight h; EvDirect (last_sent pre) rd;
                  EvByAddr payer (last_sent pre) ra] /\
     lastValid <= h /\ last_sent pre <> None /\
     Rev1.confirm_status rd = Ok false /\
     Rev1.confirm_by_address (last_sent pre) ra = Ok false).

Definition expiry_spec_rev2 (c : commitment) (lastValid : option Z)
  (r : res (option string)) (tr : list event) : Prop :=
  (forall pre h post,
     tr = pre ++ EvHeight h :: post -> lt_opt h lastValid = false ->
     r <> OutOfFuel ->
     final_check_rev2 c (last_sent pre) post r) /\
  (r = Throw Expired ->
   exists pre h rd,
     tr = pre ++ [EvHeight h; EvDirect (last_sent pre) rd] /\
     lt_opt h lastValid = false /\
     Rev2.confirm_status c rd = Ok false).

(** A lookup answer the submission of [Rev1] acts on: a status lookup or
    reverse lookup that does not resolve to false. *)
Definition decisive (ev : event) : bool :=
  match ev with
  | EvDirect _ rd => match Rev1.confirm_status rd with Ok false => false | _ => true end
  | EvByAddr _ sg ra =>
      match Rev1.confirm_by_address sg ra with Ok false => false | _ => true end
  | _ => false
  end.

(** Every status lookup that resolves to false is immediately followed by
    the reverse lookup of the same signature on [payer]. *)
Definition direct_then_reverse (payer : string) (tr : list event) : Prop :=
  forall pre sg rd post,
    tr = pre ++ EvDirect sg rd :: post -> Rev1.confirm_status rd = Ok false ->
    exists ra post', post = EvByAddr payer sg ra :: post'.

(** How the two read paths of [Rev1] decide a submission: a status lookup
    that resolves to true ends it with the signature; one that resolves to
    false is followed by the reverse lookup; a reverse lookup that resolves
    to true ends it with the signature; a status lookup that rejects ends it
    with that error, without a reverse lookup. *)
Definition read_paths_spec (payer : string) (r : res (option string))
  (tr : list event) : Prop :=
  (forall pre sg rd post,
     tr = pre ++ EvDirect sg rd :: post -> Rev1.confirm_status rd = Ok true ->
     post = [] /\ r = Ok sg) /\
  direct_then_reverse payer tr /\
  (forall pre a sg ra post,
     tr = pre ++ EvByAddr a sg ra :: post -> Rev1.confirm_by_address sg ra = Ok true ->
     post = [] /\ r = Ok sg) /\
  (forall pre sg rd post err,
     tr = pre ++ EvDirect sg rd :: post -> Rev1.confirm_status rd = Throw err ->
     post = [] /\ r = Throw err).

(** ** Concrete networks used to exercise the statements *)

Definition tx0 : Transaction := mkTx [CallerInstruction 0] (Some 150).

(** The transaction lands but its execution fails. *)
Definition env_onchain_fail : Env :=
  mkEnv (fun _ => FBody (Some [1000]))
        (fun _ => 100)
        (fun _ _ => SendOk "5sig"%string)
        (fun _ _ => DResult (Some (mkStatus (Some "InstructionError"%string) (Some Confirmed))))
        (fun _ _ _ => AResult None).

(** Nothing lands: no lookup finds the transaction, and the second height
    read is past the window of [Rev1]. *)
Definition env_never_lands : Env :=
  mkEnv (fun _ => FHttpError 500)
        (fun k => match k with O => 100 | _ => 250 end)
        (fun k _ => SendOk (match k with O => "sigA" | _ => "sigB" end)%string)
        (fun _ _ => DResult None)
        (fun _ _ _ => AResult (Some [])).

(** The status endpoint fails while the history endpoint already lists the
    transaction as confirmed. *)
Definition env_status_down : Env :=
  mkEnv (fun _ => FBody (Some []))
        (fun _ => 100)
        (fun _ _ => SendOk "sigA"%string)
        (fun _ _ => DHttpError 502)
        (fun _ _ _ => AResult (Some [mkEntry "sigA" None (Some Confirmed)])).

(** Every broadcast is rejected. *)
Definition env_send_rejected : Env :=
  mkEnv (fun _ => FBody (Some [1000; 3000]))
        (fun _ => 100)
        (fun _ _ => SendErr)
        (fun _ _ => DResult None)
        (fun _ _ _ => AResult None).

(** Every broadcast succeeds and no status lookup ever finds the
    transaction, while the block height stays at 100. *)
Definition env_stuck : Env :=
  mkEnv (fun _ => FBody (Some [1000]))
        (fun _ => 100)
        (fun k _ => SendOk "sigA"%string)
        (fun _ _ => DResult None)
        (fun _ _ _ => AResult (Some [])).

(** The ordering of commitment levels, processed < confirmed < finalized,
    and the check that the reported level is at least the requested one. *)
Definition commitment_rank (c : commitment) : nat :=
  match c with Processed => 0 | Confirmed => 1 | Finalized => 2 end.

Definition at_least (reported requested : commitment) : bool :=
  Nat.leb (commitment_rank requested) (commitment_rank reported).

(** A native (SOL) transfer that debits account 0 by one SOL and pays a
    fee of 5000 lamports. *)
Definition tx_debit : Meteora.ParsedTransaction :=
  Meteora.mkParsedTx (Some (Meteora.mkMeta (Some [2000000000]) (Some [1000000000])
    (Some []) (Some []) (Some 5000))).

(** ** Helpers for statements about the fee tiers and broadcasts *)

(** The largest fee sample; 0 when no sample is positive. *)
Definition max_sample (fees : list Z) : Z := fold_right Z.max 0 fees.

(** Every broadcast recorded in a trace is of the transaction [tx]. *)
Definition only_sends (tx : Transaction) (tr : list event) : Prop :=
  Forall (fun ev => match ev with EvSend t _ => t = tx | _ => True end) tr.

(** A [sendRawTransaction] call that rejected. *)
Definition send_rejected (ev : event) : bool :=
  match ev with EvSend _ SendErr => true | _ => false end.

(** ** Token list lookups: [getTokenList], [getTokenBySymbol] and
    [getTokenByAddress] (the same code in [part_001] and in both classes of
    [part_002]) *)
Module Tokens.

(** An entry of [tokenList.content] as parsed from JSON: the five fields
    the code copies, each possibly absent, and the other fields. *)
Record RawToken := mkRaw {
  raw_address : option string;
  raw_chainId : option Z;
  raw_name : option string;
  raw_symbol : option string;
  raw_decimals : option Z;
  raw_other : list (string * string) }.

(** The parsed token list file; its [content] field may be absent. *)
Record TokenList := mkTokenList { content : option (list RawToken) }.

(** The objects built by [getTokenList]. *)
Record Token := mkToken {
  address : option string;
  chainId : option Z;
  name : option string;
  symbol : option string;
  decimals : option Z }.

Inductive tok_error :=
| ContentNotArray   (* TypeError at this.tokenList.content.map *)
| SymbolUndefined   (* TypeError at t.symbol.toLowerCase() *)
| ApiOnlyMainnet    (* 'API usage is only allowed on mainnet-beta' *)
| InvalidPublicKey  (* new PublicKey(tokenAddress) throws *)
| ApiFailed         (* this.utl.fetchMint rejects *)
| NotFound          (* 'Token not found in the token list' *)
| SchemaMismatch.   (* 'Token info does not match the expected schema' *)

Inductive tres (A : Type) :=
| TOk (a : A)
| TErr (e : tok_error).
Arguments TOk {A} a.
Arguments TErr {A} e.

(** [loadTokenList]: a file that cannot be read or parsed is replaced by
    [{ content: [] }]. *)
Definition loadTokenList (file : option TokenList) : TokenList :=
  match file with
  | Some tl => tl
  | None => mkTokenList (Some [])
  end.

Definition project (t : RawToken) : Token :=
  mkToken (raw_address t) (raw_chainId t) (raw_name t) (raw_symbol t)
    (raw_decimals t).

(** [getTokenList]: [this.tokenList.content.map(...) || []].  An array is
    truthy, so the [|| []] never applies; an absent [content] throws. *)
Definition getTokenList (tl : TokenList) : tres (list Token) :=
  match content tl with
  | Some c => TOk (map project c)
  | None => TErr ContentNotArray
  end.

(** [tokenList.find((t) => t.address === tokenAddress)] *)
Definition find_address (a : string) (l : list Token) : option Token :=
  find (fun t => match address t with
                 | Some x => String.eqb x a
                 | None => false
                 end) l.

Section Lookups.

(** Library code the lookups call: [String.prototype.toLowerCase],
    whether [new PublicKey(s)] succeeds, [tokenInfoValidator.Check] (the
    schema is not part of these sources) and [utl.fetchMint] ([None]: the
    promise rejects). *)
Variable toLowerCase : string -> string.
Variable is_public_key : string -> bool.
Variable check : Token -> bool.
Variable fetchMint : string -> option Token.

(** [tokenList.find((t) => t.symbol.toLowerCase() === q)], where [q] is
    [symbol.toLowerCase()]; the callback throws on an entry without a
    symbol. *)
Fixpoint find_symbol (q : string) (l : list Token) : tres (option Token) :=
  match l with
  | [] => TOk None
  | t :: r =>
      match symbol t with
      | None => TErr SymbolUndefined
      | Some s => if String.eqb (toLowerCase s) q then TOk (Some t)
                  else find_symbol q r
      end
  end.

(** [getTokenBySymbol(symbol)] *)
Definition getTokenBySymbol (tl : TokenList) (sym : string) : tres Token :=
  match getTokenList tl with
  | TErr e => TErr e
  | TOk l =>
      match find_symbol (toLowerCase sym) l with
      | TErr e => TErr e
      | TOk None => TErr NotFound
      | TOk (Some t) => if check t then TOk t else TErr SchemaMismatch
      end
  end.

(** [getTokenByAddress(tokenAddress, useApi)] on a controller whose
    [network] is [network]. *)
Definition getTokenByAddress (network : string) (tl : TokenList)
  (tokenAddress : string) (useApi : bool) : tres Token :=
  if useApi && negb (String.eqb network "mainnet-beta") then TErr ApiOnlyMainnet
  else if negb (is_public_key tokenAddress) then TErr InvalidPublicKey
  else
    let found :=
      if useApi then
        match fetchMint tokenAddress with
        | Some t => TOk t
        | None => TErr ApiFailed
        end
      else
        match getTokenList tl with
        | TErr e => TErr e
        | TOk l =>
            match find_address tokenAddress l with
            | Some t => TOk t
            | None => TErr NotFound
            end
        end in
    match found with
    | TErr e => TErr e
    | TOk t => if check t then TOk t else TErr SchemaMismatch
    end.

End Lookups.

End Tokens.

(** ** Construction of a [SolanaController]: [constructor],
    [validateSolanaNetwork], [loadWallet] and [loadTokenList] *)
Module Construct.

Inductive ctor_error :=
| InvalidNetwork     (* 'Invalid SOLANA_NETWORK. ...' *)
| WalletUnset        (* 'SOLANA_WALLET_JSON environment variable is not set' *)
| WalletLoadFailed.  (* 'Failed to load wallet JSON: ...' *)

Inductive cres (A : Type) :=
| COk (a : A)
| CErr (e : ctor_error).
Arguments COk {A} a.
Arguments CErr {A} e.

(** [validateSolanaNetwork(network)] *)
Definition validateSolanaNetwork (network : option string) : cres string :=
  match network with
  | Some n =>
      if String.eqb n "mainnet-beta" || String.eqb n "devnet" then COk n
      else CErr InvalidNetwork
  | None => CErr InvalidNetwork
  end.

Section Ctor.

(** The key pair type, and the library code the constructor calls:
    dotenv's [config()] (the environment after loading the [.env] file),
    [String.prototype.trim], [clusterApiUrl], reading and decoding the
    wallet file ([None]: [readFileSync], [JSON.parse] or
    [Keypair.fromSecretKey] throws), and reading the token list file
    ([None]: it cannot be read or parsed). *)
Variable Keypair : Type.
Variable config : (string -> option string) -> (string -> option string).
Variable trim : string -> string.
Variable clusterApiUrl : string -> string.
Variable readWallet : string -> option Keypair.
Variable tokenListFile : option Tokens.TokenList.

Record Controller := mkController {
  network : string;
  rpcUrl : string;
  keypair : Keypair;
  tokenList : Tokens.TokenList }.

(** [loadWallet()]: [!walletPath] holds for an unset or empty variable. *)
Definition loadWallet (env : string -> option string) : cres Keypair :=
  match env "SOLANA_WALLET_JSON"%string with
  | None => CErr WalletUnset
  | Some p =>
      if String.eqb p EmptyString then CErr WalletUnset
      else match readWallet p with
           | Some k => COk k
           | None => CErr WalletLoadFailed
           end
  end.

(** [new SolanaController()] run in the process environment [env0]: the
    network is validated before [config()] loads the [.env] file. *)
Definition construct (env0 : string -> option string) : cres Controller :=
  match validateSolanaNetwork (env0 "SOLANA_NETWORK"%string) with
  | CErr e => CErr e
  | COk network =>
      let env := config env0 in
      let rpcUrl :=
        match env "SOLANA_RPC_URL_OVERRIDE"%string with
        | Some o => if String.eqb (trim o) EmptyString then clusterApiUrl network else o
        | None => clusterApiUrl network
        end in
      match loadWallet env with
      | CErr e => CErr e
      | COk k => COk (mkController network rpcUrl k (Tokens.loadTokenList tokenListFile))
      end
  end.

End Ctor.

Arguments mkController {Keypair} network rpcUrl keypair tokenList.
Arguments network {Keypair} c.
Arguments rpcUrl {Keypair} c.
Arguments keypair {Keypair} c.
Arguments tokenList {Keypair} c.

End Construct.

(** ** The pool cache of [MeteoraController.getDlmmPool] *)
Module Dlmm.

Section Cache.

(** A [DLMM] instance, and whether [new PublicKey(poolAddress)]
    succeeds. *)
Variable Pool : Type.
Variable is_public_key : string -> bool.

(** A [Map] keyed by pool address. *)
Definition map (A : Type) : Type := string -> option A.

Definition map_set {A} (m : map A) (k : string) (v : A) : map A :=
  fun k' => if String.eqb k' k then Some v else m k'.

Definition map_delete {A} (m : map A) (k : string) : map A :=
  fun k' => if String.eqb k' k then None else m k'.

(** The module-level maps [dlmmPools] and [dlmmPoolPromises] (a promise is
    named by its index in [creates]), the [DLMM.create] calls made (promise
    index and pool address, oldest first) and the promises already
    settled. *)
Record Cache := mkCache {
  dlmmPools : map Pool;
  dlmmPoolPromises : map nat;
  creates : list (nat * string);
  settled : list nat }.

Definition empty_cache : Cache := mkCache (fun _ => None) (fun _ => None) [] [].

(** What [getDlmmPool] resolves to: a cached instance, a creation promise,
    or a rejection ([new PublicKey] throws inside the async function). *)
Inductive answer :=
| FromCache (p : Pool)
| FromPromise (pid : nat)
| Rejected.

(** [getDlmmPool(poolAddress)]: its body has no [await], so it runs to its
    end in one step. *)
Definition getDlmmPool (c : Cache) (poolAddress : string) : answer * Cache :=
  match dlmmPools c poolAddress with
  | Some p => (FromCache p, c)
  | None =>
      match dlmmPoolPromises c poolAddress with
      | Some pid => (FromPromise pid, c)
      | None =>
          if is_public_key poolAddress then
            let pid := List.length (creates c) in
            (FromPromise pid,
             mkCache (dlmmPools c) (map_set (dlmmPoolPromises c) poolAddress pid)
               (creates c ++ [(pid, poolAddress)]) (settled c))
          else (Rejected, c)
      end
  end.

(** The [DLMM.create] promise [pid] settles: on fulfilment its [.then]
    callback stores the instance and removes the promise; on rejection
    nothing runs.  A promise settles once. *)
Definition settle (c : Cache) (pid : nat) (outcome : option Pool) : Cache :=
  if existsb (Nat.eqb pid) (settled c) then c else
  match nth_error (creates c) pid with
  | None => c
  | Some (_, addr) =>
      match outcome with
      | Some pool =>
          mkCache (map_set (dlmmPools c) addr pool) (map_delete (dlmmPoolPromises c) addr)
            (creates c) (settled c ++ [pid])
      | None =>
          mkCache (dlmmPools c) (dlmmPoolPromises c) (creates c) (settled c ++ [pid])
      end
  end.

Inductive cache_event :=
| Get (poolAddress : string)
| Settle (pid : nat) (outcome : option Pool).

Definition step (c : Cache) (ev : cache_event) : Cache :=
  match ev with
  | Get a => snd (getDlmmPool c a)
  | Settle pid o => settle c pid o
  end.

Definition run_cache (evs : list cache_event) : Cache :=
  fold_left step evs empty_cache.

(** The invariant the cache keeps: promise names are positions in
    [creates], an address is created at most once, settled promises were
    created, an address never created is in neither map, a created one is
    either pending (or rejected) in [dlmmPoolPromises] or fulfilled in
    [dlmmPools], and an unsettled one is pending. *)
Definition cache_inv (c : Cache) : Prop :=
  (forall k x, nth_error (creates c) k = Some x -> fst x = k) /\
  NoDup (List.map snd (creates c)) /\
  (forall k, In k (settled c) -> (k < List.length (creates c))%nat) /\
  (forall a, ~ (exists pid, In (pid, a) (creates c)) ->
     dlmmPools c a = None /\ dlmmPoolPromises c a = None) /\
  (forall pid a, In (pid, a) (creates c) ->
     (dlmmPoolPromises c a = Some pid /\ dlmmPools c a = None) \/
     (dlmmPoolPromises c a = None /\ (exists p, dlmmPools c a = Some p) /\
      In pid (settled c))) /\
  (forall pid a, In (pid, a) (creates c) -> ~ In pid (settled c) ->
     dlmmPoolPromises c a = Some pid /\ dlmmPools c a = None).

End Cache.

Arguments mkCache {Pool}.
Arguments dlmmPools {Pool} c _.
Arguments dlmmPoolPromises {Pool} c _.
Arguments creates {Pool} c.
Arguments settled {Pool} c.
Arguments empty_cache {Pool}.
Arguments getDlmmPool {Pool} is_public_key c poolAddress.
Arguments settle {Pool} c pid outcome.
Arguments step {Pool} is_public_key c ev.
Arguments run_cache {Pool} is_public_key evs.
Arguments cache_inv {Pool} c.
Arguments FromCache {Pool} p.
Arguments FromPromise {Pool} pid.
Arguments Rejected {Pool}.
Arguments Get {Pool} poolAddress.
Arguments Settle {Pool} pid outcome.

End Dlmm.

(** No entry of [pre] has a symbol equal to [q] once lowercased, and
    every entry of [pre] has a symbol. *)
Definition symbols_differ (toLowerCase : string -> string) (q : string)
  (pre : list Tokens.Token) : Prop :=
  Forall (fun u => exists s, Tokens.symbol u = Some s /\ toLowerCase s <> q) pre.

(** [txDetails.meta?.preBalances || []] and the like. *)
Definition balances_of (sel : Meteora.Meta -> option (list Z))
  (tx : Meteora.ParsedTransaction) : list Z :=
  match Meteora.meta tx with Some m => Meteora.or_empty (sel m) | None => [] end.

(** ** [GetBalanceController.getBalance] (routes/getBalance.ts) *)
Module Balance.

(** An entry of the response: [name] is [undefined] when the token list
    entry it comes from has no symbol. *)
Record BalanceEntry := mkBal {
  b_mint : string;
  b_name : option string;
  b_uiAmount : string }.

Inductive bal_error :=
| InvalidOwner  (* new PublicKey(address) throws *)
| RpcFailed  (* connection.getBalance or getTokenAccountsByOwner rejects *)
| UnpackFailed  (* unpackAccount throws *)
| TokenListError (e : Tokens.tok_error)  (* thrown by [getTokenList] *)
| ResponseMismatch.  (* 'Balance response does not match the expected schema' *)

Inductive bres :=
| BOk (r : list BalanceEntry)
| BErr (e : bal_error).

Section GetBalance.

(** Library code: [(solBalance / 1e9).toString()] and
    [DecimalUtil.fromBN(new BN(amount.toString()), decimals).toString()]. *)
Variable sol_ui : Z -> string.
Variable fromBN : Z -> option Z -> string.

(** Whether [new PublicKey(s)] succeeds. *)
Variable is_public_key : string -> bool.

(** [!symbols || symbols.includes(token.symbol)]; an undefined symbol is
    never included in a list of strings. *)
Definition selected (symbols : option (list string)) (t : Tokens.Token) : bool :=
  match symbols with
  | None => true
  | Some ss => match Tokens.symbol t with
               | Some s => existsb (String.eqb s) ss
               | None => false
               end
  end.

(** The property key [acc[token.address]]: an undefined address is the
    key ['undefined']. *)
Definition key (t : Tokens.Token) : string :=
  match Tokens.address t with Some a => a | None => "undefined"%string end.

(** [tokenList.reduce(...)] into [tokenDefs]: a later entry with the same
    address overwrites an earlier one. *)
Definition tokenDefs (symbols : option (list string)) (l : list Tokens.Token)
  : Dlmm.map (option string * option Z) :=
  fold_left (fun acc t =>
               if selected symbols t
               then Dlmm.map_set acc (key t) (Tokens.symbol t, Tokens.decimals t)
               else acc)
            l (fun _ => None).

(** [BalanceResponse]: [mint], [name] and [uiAmount] must be strings;
    [mint] and [uiAmount] always are. *)
Definition balance_check (r : list BalanceEntry) : bool :=
  forallb (fun b => match b_name b with Some _ => true | None => false end) r.

(** [!symbols || symbols.includes('SOL')] *)
Definition wants_sol (symbols : option (list string)) : bool :=
  match symbols with
  | None => true
  | Some ss => existsb (String.eqb "SOL") ss
  end.

(** The loop over [accounts.value], in the order of the answer: [None] is
    an account [unpackAccount] cannot decode, [Some (mint, amount)] the
    base-58 mint and the raw amount of one it decodes; an account whose mint
    has no entry in [tokenDefs] is skipped. *)
Fixpoint collect (defs : Dlmm.map (option string * option Z))
  (accs : list (option (string * Z))) : option (list BalanceEntry) :=
  match accs with
  | [] => Some []
  | None :: _ => None
  | Some (mint, amount) :: r =>
      let here :=
        match defs mint with
        | None => []
        | Some (nm, dec) => [mkBal mint nm (fromBN amount dec)]
        end in
      option_map (app here) (collect defs r)
  end.

(** [getBalance(address, symbols)].  [solAnswer] is the answer of
    [connection.getBalance] for the owner and [accountsAnswer] that of
    [getTokenAccountsByOwner] ([None]: the promise rejects).  A missing or
    empty [address] means the controller's own wallet, whose public key
    always parses. *)
Definition getBalance (tl : Tokens.TokenList) (address : option string)
  (symbols : option (list string)) (solAnswer : option Z)
  (accountsAnswer : option (list (option (string * Z)))) : bres :=
  let owner_ok :=
    match address with
    | Some a => if String.eqb a EmptyString then true else is_public_key a
    | None => true
    end in
  if negb owner_ok then BErr InvalidOwner
  else
    let solPart :=
      if wants_sol symbols then
        match solAnswer with
        | Some b => Some [mkBal "SOL" (Some "SOL"%string) (sol_ui b)]
        | None => None
        end
      else Some [] in
    match solPart with
    | None => BErr RpcFailed
    | Some sol =>
        match Tokens.getTokenList tl with
        | Tokens.TErr e => BErr (TokenListError e)
        | Tokens.TOk l =>
            match accountsAnswer with
            | None => BErr RpcFailed
            | Some accs =>
                match collect (tokenDefs symbols l) accs with
                | None => BErr UnpackFailed
                | Some entries =>
                    let response := sol ++ entries in
                    if balance_check response then BOk response
                    else BErr ResponseMismatch
                end
            end
        end
    end.

End GetBalance.

End Balance.

(** A token list of two entries, and ASCII lowercasing standing for
    [String.prototype.toLowerCase]. *)
Definition sol_raw : Tokens.RawToken :=
  Tokens.mkRaw (Some "So11111111111111111111111111111111111111112"%string) (Some 101)
    (Some "Wrapped SOL"%string) (Some "SOL"%string) (Some 9) [].

Definition usdc_raw : Tokens.RawToken :=
  Tokens.mkRaw (Some "EPjFWdd5AufqSSqeM2qN1xzybapC8G4wEGGkZwyTDt1v"%string) (Some 101)
    (Some "USD Coin"%string) (Some "USDC"%string) (Some 6) [].

Definition token_list0 : Tokens.TokenList :=
  Tokens.mkTokenList (Some [sol_raw; usdc_raw]).

Definition lower_char (c : Ascii.ascii) : Ascii.ascii :=
  let n := Ascii.nat_of_ascii c in
  if andb (Nat.leb 65 n) (Nat.leb n 90) then Ascii.ascii_of_nat (n + 32) else c.

Fixpoint lower (s : string) : string :=
  match s with
  | EmptyString => EmptyString
  | String c r => String (lower_char c) (lower r)
  end.

(** A process environment that sets only [SOLANA_NETWORK], and a
    [config()] that adds the wallet path from the [.env] file. *)
Definition env_devnet (k : string) : option string :=
  if String.eqb k "SOLANA_NETWORK" then Some "devnet"%string else None.

Definition config_wallet (env : string -> option string) (k : string) : option string :=
  if String.eqb k "SOLANA_WALLET_JSON" then Some "wallet.json"%string else env k.

(** * Fee estimator *)

Lemma insert_asc_In (a x : Z) (l : list Z) :
  In x (insert_asc a l) <-> x = a \/ In x l.
Proof.
  induction l as [|y r IH]; simpl.
  - intuition congruence.
  - destruct (a <=? y); simpl; [intuition congruence|].
    rewrite IH. intuition congruence.
Qed.

Lemma sort_asc_In (x : Z) (l : list Z) : In x (sort_asc l) <-> In x l.
Proof.
  induction l as [|y r IH]; simpl; [tauto|].
  rewrite insert_asc_In, IH. intuition congruence.
Qed.

Lemma last_In (l : list Z) (d : Z) : l <> [] -> In (last l d) l.
Proof.
  induction l as [|a r IH]; intros H; [congruence|].
  destruct r as [|b r']; simpl; [auto|].
  right. apply IH. discriminate.
Qed.

(** The maximum fee used by the tiers is positive when there is one. *)
Lemma max_fee_pos (fees : list Z) :
  0 < Z.of_nat (List.length (sort_asc (nonZero fees))) ->
  0 < last_elem (sort_asc (nonZero fees)).
Proof.
  intros Hlen. unfold last_elem.
  destruct (sort_asc (nonZero fees)) as [|a r] eqn:E; [simpl in Hlen; lia|].
  assert (Hin : In (last (a :: r) 0) (sort_asc (nonZero fees))).
  { rewrite E. apply last_In. discriminate. }
  rewrite sort_asc_In in Hin. unfold nonZero in Hin.
  apply filter_In in Hin as [_ Hpos]. apply Z.ltb_lt in Hpos. exact Hpos.
Qed.

(** [Math.floor(maxFee * 0.75)] lies between [Math.floor(maxFee * 0.5)]
    and [maxFee]. *)
Lemma three_quarters_bounds (m : Z) :
  0 < m -> m / 2 <= three_quarters m <= m.
Proof.
  intros Hm. unfold three_quarters, round_ne.
  destruct (Z.log2 (3 * m) - 52 <=? 0) eqn:Hs.
  - Z.to_euclidean_division_equations; lia.
  - apply Z.leb_gt in Hs.
    set (s := Z.log2 (3 * m) - 52) in *.
    assert (Hp : 2 ^ s * 2 ^ 52 <= 3 * m).
    { rewrite <- Z.pow_add_r by lia. replace (s + 52) with (Z.log2 (3 * m)) by (unfold s; lia).
      apply Z.log2_spec. lia. }
    assert (Hpos : 0 < 2 ^ s) by (apply Z.pow_pos_nonneg; lia).
    set (p := 2 ^ s) in *.
    pose proof (Z.div_mod (3 * m) p ltac:(lia)) as Hd.
    pose proof (Z.mod_pos_bound (3 * m) p Hpos) as Hr.
    set (q := 3 * m / p) in *. set (r := (3 * m) mod p) in *.
    rewrite (Z.mul_comm q p).
    assert (H2 : 2 * m <= p * q /\ p * q + p <= 4 * m) by lia.
    destruct (r * 2 <? p); [|destruct (p <? r * 2); [|destruct (Z.even q)]];
      split; Z.to_euclidean_division_equations; lia.
Qed.

Lemma rev1_tiers_bounds (fees : list Z) :
  monotone (Rev1.tiers fees) /\
  10000 <= low (Rev1.tiers fees) /\ 20000 <= medium (Rev1.tiers fees) /\
  30000 <= high (Rev1.tiers fees) /\ 40000 <= extreme (Rev1.tiers fees).
Proof.
  unfold Rev1.tiers, monotone; cbn [Rev1.DEFAULT_FEES].
  destruct (0 <? Z.of_nat (List.length (sort_asc (nonZero fees)))) eqn:E.
  - apply Z.ltb_lt, max_fee_pos in E.
    cbn [low medium high extreme].
    set (m := last_elem (sort_asc (nonZero fees))) in *.
    pose proof (three_quarters_bounds m E) as Htq. unfold quarter, half.
    set (t := three_quarters m) in *.
    Z.to_euclidean_division_equations; repeat split; lia.
  - simpl. lia.
Qed.

Lemma rev2_tiers_bounds (fees : list Z) :
  monotone (Rev2.tiers fees) /\ 0 <= low (Rev2.tiers fees).
Proof.
  unfold Rev2.tiers, monotone.
  destruct (0 <? Z.of_nat (List.length (sort_asc (nonZero fees)))) eqn:E.
  - apply Z.ltb_lt, max_fee_pos in E.
    cbn [low medium high extreme].
    set (m := last_elem (sort_asc (nonZero fees))) in *.
    pose proof (three_quarters_bounds m E) as Htq. unfold quarter, half.
    set (t := three_quarters m) in *.
    Z.to_euclidean_division_equations; repeat split; lia.
  - simpl. lia.
Qed.

(** The outcome of both estimators, whatever the network answers. *)
Lemma rev1_fetch_cases (fetch : FeeRequest -> fee_resp) account endpoint :
  Rev1.fetchEstimatePriorityFees fetch account endpoint = Ok Rev1.DEFAULT_FEES \/
  exists fees, Rev1.fetchEstimatePriorityFees fetch account endpoint
               = Ok (Rev1.tiers fees).
Proof.
  unfold Rev1.fetchEstimatePriorityFees, Rev1.fee_try.
  destruct (fetch _) as [code| |[fees|]]; eauto.
Qed.

Lemma rev2_fetch_cases (fetch : FeeRequest -> fee_resp) account endpoint :
  Rev2.fetchEstimatePriorityFees fetch account endpoint = Ok (mkFees 0 0 0 8000) \/
  Rev2.fetchEstimatePriorityFees fetch account endpoint = Ok (mkFees 2000 4000 6000 8000) \/
  exists fees, Rev2.fetchEstimatePriorityFees fetch account endpoint
               = Ok (Rev2.tiers fees).
Proof.
  unfold Rev2.fetchEstimatePriorityFees, Rev2.fee_try.
  destruct (fetch _) as [code| |[fees|]]; eauto.
Qed.

(** C6: for every network answer (every sample list, HTTP failure, network
    or parse error), the estimate resolves with tiers low <= medium <= high
    <= extreme.  In revision [Rev1], which configures per-tier floors, every
    tier is at least its floor (10000, 20000, 30000, 40000), hence at least
    10000; revision [Rev2] configures no floor and its tiers are
    non-negative. *)
Theorem fee_tiers_monotone_and_floored :
  forall (fetch : FeeRequest -> fee_resp) account endpoint,
    (exists f, Rev1.fetchEstimatePriorityFees fetch account endpoint = Ok f /\
       monotone f /\ 10000 <= low f /\ 20000 <= medium f /\
       30000 <= high f /\ 40000 <= extreme f) /\
    (exists f, Rev2.fetchEstimatePriorityFees fetch account endpoint = Ok f /\
       monotone f /\ 0 <= low f).
Proof.
  intros fetch account endpoint. split.
  - destruct (rev1_fetch_cases fetch account endpoint) as [H|[fees H]];
      rewrite H; eexists; split; [reflexivity| |reflexivity|].
    + unfold monotone; simpl; lia.
    + apply rev1_tiers_bounds.
  - destruct (rev2_fetch_cases fetch account endpoint) as [H|[H|[fees H]]];
      rewrite H; eexists; (split; [reflexivity|]).
    + unfold monotone; simpl; lia.
    + unfold monotone; simpl; lia.
    + apply rev2_tiers_bounds.
Qed.

(** C7 (counterexample): on the samples [0, 0, 5000, 10000, 20000] revision
    [Rev1] does not return 5000/10000/15000/20000: its floors raise the
    tiers to 10000/20000/30000/40000. *)
Lemma fee_example_rev1_floors :
  Rev1.fetchEstimatePriorityFees (fun _ => FBody (Some [0; 0; 5000; 10000; 20000]))
    (Some "JUP6LkbZbjS1jKKwapdHNy74zcZ3tLUZoi5QNyVTaV4"%string)
    "https://api.mainnet-beta.solana.com"%string
  <> Ok (mkFees 5000 10000 15000 20000).
Proof. vm_compute. discriminate. Qed.

(** C7 (as amended): on the samples [0, 0, 5000, 10000, 20000] revision
    [Rev2] returns exactly 25/50/75/100% of the maximum 20000, that is
    5000/10000/15000/20000, and revision [Rev1] returns those values raised to
    its floors, 10000/20000/30000/40000. *)
Theorem fee_example_tiers :
  forall account endpoint,
    Rev2.fetchEstimatePriorityFees (fun _ => FBody (Some [0; 0; 5000; 10000; 20000]))
      account endpoint = Ok (mkFees 5000 10000 15000 20000) /\
    Rev1.fetchEstimatePriorityFees (fun _ => FBody (Some [0; 0; 5000; 10000; 20000]))
      account endpoint = Ok (mkFees 10000 20000 30000 40000).
Proof. intros. split; reflexivity. Qed.

(** C8 (counterexample): revision [Rev2] has no single fallback schedule:
    a non-OK HTTP answer gives 0/0/0/8000 while a network error gives
    2000/4000/6000/8000. *)
Lemma fee_fallbacks_differ_rev2 :
  Rev2.fetchEstimatePriorityFees (fun _ => FHttpError 503) None "u"%string
  <> Rev2.fetchEstimatePriorityFees (fun _ => FFailure) None "u"%string.
Proof. vm_compute. discriminate. Qed.

(** C8 (as amended): the estimator never rejects.  In [Rev1] a non-OK HTTP
    answer, a network or parse error, a body without [result] and a sample
    set with no positive fee all give the fallback 10000/20000/30000/40000.
    In [Rev2] a non-OK HTTP answer gives 0/0/0/8000, a network or parse error
    or a body without [result] gives 2000/4000/6000/8000, and a sample set with
    no positive fee gives 0/0/0/0. *)
Theorem fee_estimator_never_raises :
  forall (fetch : FeeRequest -> fee_resp) account endpoint code
         (samples : list Z),
    (exists f, Rev1.fetchEstimatePriorityFees fetch account endpoint = Ok f) /\
    (exists f, Rev2.fetchEstimatePriorityFees fetch account endpoint = Ok f) /\
    Rev1.fetchEstimatePriorityFees (fun _ => FHttpError code) account endpoint
      = Ok Rev1.DEFAULT_FEES /\
    Rev1.fetchEstimatePriorityFees (fun _ => FFailure) account endpoint
      = Ok Rev1.DEFAULT_FEES /\
    Rev1.fetchEstimatePriorityFees (fun _ => FBody None) account endpoint
      = Ok Rev1.DEFAULT_FEES /\
    Rev1.fetchEstimatePriorityFees
      (fun _ => FBody (Some (filter (fun f => f <=? 0) samples))) account endpoint
      = Ok Rev1.DEFAULT_FEES /\
    Rev2.fetchEstimatePriorityFees (fun _ => FHttpError code) account endpoint
      = Ok (mkFees 0 0 0 8000) /\
    Rev2.fetchEstimatePriorityFees (fun _ => FFailure) account endpoint
      = Ok (mkFees 2000 4000 6000 8000) /\
    Rev2.fetchEstimatePriorityFees (fun _ => FBody None) account endpoint
      = Ok (mkFees 2000 4000 6000 8000) /\
    Rev2.fetchEstimatePriorityFees
      (fun _ => FBody (Some (filter (fun f => f <=? 0) samples))) account endpoint
      = Ok (mkFees 0 0 0 0).
Proof.
  intros fetch account endpoint code samples.
  assert (Hnz : nonZero (filter (fun f => f <=? 0) samples) = []).
  { unfold nonZero. induction samples as [|x r IH]; simpl; [reflexivity|].
    destruct (x <=? 0) eqn:E; simpl; [|exact IH].
    replace (0 <? x) with false by (symmetry; apply Z.ltb_ge, Z.leb_le, E).
    exact IH. }
  split; [destruct (rev1_fetch_cases fetch account endpoint) as [H|[fees H]]; eauto|].
  split; [destruct (rev2_fetch_cases fetch account endpoint) as [H|[H|[fees H]]]; eauto|].
  unfold Rev1.fetchEstimatePriorityFees, Rev2.fetchEstimatePriorityFees,
    Rev1.fee_try, Rev2.fee_try, Rev1.tiers, Rev2.tiers.
  rewrite Hnz. repeat split.
Qed.

(** C10: when an account is given, the request carries the hardcoded
    account [GASeo1wEK3rWwep6fsAt212Jw9zAYguDY5qUwTnyZ4RH] whatever account
    the caller supplied, so any two supplied accounts give the same request
    and the same estimate (revision [Rev1]). *)
Theorem fee_request_ignores_account :
  forall (fetch : FeeRequest -> fee_resp) (a1 a2 endpoint : string),
    params (req_payload (Rev1.fee_request (Some a1) endpoint))
      = [["GASeo1wEK3rWwep6fsAt212Jw9zAYguDY5qUwTnyZ4RH"%string]] /\
    Rev1.fee_request (Some a1) endpoint = Rev1.fee_request (Some a2) endpoint /\
    Rev1.fetchEstimatePriorityFees fetch (Some a1) endpoint
      = Rev1.fetchEstimatePriorityFees fetch (Some a2) endpoint.
Proof. intros. repeat split. Qed.

(** * Submission loop *)

Lemma sends_guarded_snoc below o l x :
  sends_guarded below o (l ++ [x]) =
  sends_guarded below o l && send_ok_at below (last_height o l) x.
Proof.
  revert o. induction l as [|y r IH]; intros o.
  - destruct x; simpl; try destruct o; simpl; rewrite ?andb_true_r; reflexivity.
  - destruct y; simpl; rewrite ?IH; try reflexivity.
    destruct o; simpl; [rewrite andb_assoc; reflexivity|reflexivity].
Qed.

Lemma last_height_snoc o l x :
  last_height o (l ++ [x]) = height_after (last_height o l) x.
Proof. unfold last_height. rewrite fold_left_app. reflexivity. Qed.

(** Unfold the monad and the RPC primitives, then split on every answer
    and every interpretation the code branches on. *)
Ltac unfold_rpc :=
  unfold bind, ret, throw, lift, out_of_fuel, getBlockHeight,
    sendRawTransaction, fetchSignatureStatus, fetchSignaturesForAddress,
    Rev1.confirmTransaction, Rev1.confirmTransactionByAddress,
    Rev2.confirmTransaction.

Ltac simpl_rpc :=
  cbn -[Rev1.confirm_status Rev1.confirm_by_address Rev2.confirm_status
        Rev1.retry_loop Rev2.retry_loop].

Ltac split_answers :=
  repeat (simpl_rpc;
    match goal with
    | |- context [env_send ?e ?n ?t] => destruct (env_send e n t) eqn:?
    | |- context [Rev1.confirm_status ?r] =>
        destruct (Rev1.confirm_status r) as [[|]| |] eqn:?
    | |- context [Rev1.confirm_by_address ?sg ?r] =>
        destruct (Rev1.confirm_by_address sg r) as [[|]| |] eqn:?
    | |- context [Rev2.confirm_status ?c ?r] =>
        destruct (Rev2.confirm_status c r) as [[|]| |] eqn:?
    end).

Lemma rev1_loop_guarded (e : Env) fuel payer tx lv :
  forall bh sg st,
    sends_guarded (fun h => h <? lv) None (trace st) = true ->
    last_height None (trace st) = Some bh ->
    sends_guarded (fun h => h <? lv) None
      (trace (snd (Rev1.retry_loop fuel payer tx lv bh sg e st))) = true.
Proof.
  induction fuel as [|fuel IH]; intros bh sg st Hg Hl; [exact Hg|].
  cbn [Rev1.retry_loop]. unfold_rpc.
  destruct (bh <? lv) eqn:Hlt; split_answers; try apply IH;
    cbn [trace snd];
    repeat rewrite ?sends_guarded_snoc, ?last_height_snoc, ?Hg, ?Hl;
    simpl; rewrite ?Hlt; reflexivity.
Qed.

Lemma rev2_loop_guarded (e : Env) fuel c tx lv :
  forall bh sg st,
    sends_guarded (fun h => lt_opt h lv) None (trace st) = true ->
    last_height None (trace st) = Some bh ->
    sends_guarded (fun h => lt_opt h lv) None
      (trace (snd (Rev2.retry_loop fuel c tx lv bh sg e st))) = true.
Proof.
  induction fuel as [|fuel IH]; intros bh sg st Hg Hl; [exact Hg|].
  cbn [Rev2.retry_loop]. unfold_rpc.
  destruct (lt_opt bh lv) eqn:Hlt; split_answers; try apply IH;
    cbn [trace snd];
    repeat rewrite ?sends_guarded_snoc, ?last_height_snoc, ?Hg, ?Hl;
    simpl; rewrite ?Hlt; reflexivity.
Qed.

(** C1: in both revisions, every [sendRawTransaction] of a submission is
    preceded by a [getBlockHeight] whose latest answer is strictly below the
    transaction's [lastValidBlockHeight] ([Rev1] sets it to the first observed
    height plus 100; [Rev2] reads it from the transaction). *)
Theorem broadcast_only_below_last_valid_height :
  forall (e : Env) fuel tx payer account endpoint c,
    sends_guarded (fun h => h <? env_height e 0 + 100) None
      (trace (snd (run (Rev1.sendAndConfirmTransaction fuel tx payer account endpoint) e)))
      = true /\
    sends_guarded (fun h => lt_opt h (lastValidBlockHeight tx)) None
      (trace (snd (run (Rev2.sendAndConfirmTransaction fuel tx account c endpoint) e)))
      = true.
Proof.
  intros e fuel tx payer account endpoint c. split.
  - unfold run, Rev1.sendAndConfirmTransaction, Rev1.fetchFees.
    unfold bind at 1.
    destruct (Rev1.fetchEstimatePriorityFees _ _ _); [|reflexivity|reflexivity].
    unfold bind, getBlockHeight. cbn [n_height init_state trace].
    apply rev1_loop_guarded; reflexivity.
  - unfold run, Rev2.sendAndConfirmTransaction, Rev2.fetchFees.
    unfold bind at 1.
    destruct (Rev2.fetchEstimatePriorityFees _ _ _); [|reflexivity|reflexivity].
    unfold bind, getBlockHeight. cbn [n_height init_state trace].
    apply rev2_loop_guarded; reflexivity.
Qed.

(** An event satisfying [Q] found in [l ++ ext], when [l] has none, lies
    in [ext]. *)
Lemma split_in_ext (Q : event -> bool) (l ext pre post : list event) (x : event) :
  Forall (fun ev => Q ev = false) l ->
  l ++ ext = pre ++ x :: post -> Q x = true ->
  exists pre', ext = pre' ++ x :: post.
Proof.
  intros HF. revert pre. induction HF as [|y l Hy HF IH]; intros pre H Hx.
  - simpl in H. eauto.
  - destruct pre as [|z pre]; simpl in H; inversion H; subst.
    + congruence.
    + eapply IH; eauto.
Qed.

Lemma Forall_snoc_false (Q : event -> bool) l x :
  Forall (fun ev => Q ev = false) l -> Q x = false ->
  Forall (fun ev => Q ev = false) (l ++ [x]).
Proof. intros. apply Forall_app; auto. Qed.

(** A [getSignatureStatuses] answer whose status carries an on-chain
    error. *)
Definition onchain_failure (ev : event) : bool :=
  match ev with
  | EvDirect _ (DResult (Some status)) =>
      match st_err status with Some _ => true | None => false end
  | _ => false
  end.

(** Such an answer, if any, is the last call and its error is the result. *)
Definition onchain_terminal (r : res (option string)) (tr : list event) : Prop :=
  forall pre sg err cs post,
    tr = pre ++ EvDirect sg (DResult (Some (mkStatus (Some err) cs))) :: post ->
    post = [] /\ r = Throw (ConfirmFailed (TxFailedWith err)).

Ltac locate_event HF H :=
  rewrite <- ?app_assoc in H; cbn [app] in H;
  eapply split_in_ext in H; [|exact HF|reflexivity];
  let pre' := fresh "pre'" in
  destruct H as [pre' H];
  destruct pre' as [|? [|? [|? [|? ?]]]]; cbn [app] in H; inversion H; subst.

Lemma rev1_confirm_ok_no_failure sg r b :
  Rev1.confirm_status r = Ok b -> onchain_failure (EvDirect sg r) = false.
Proof.
  destruct r as [| |[[st_e cs]|]]; simpl; try discriminate; auto.
  destruct st_e; simpl; congruence.
Qed.

Lemma rev2_confirm_ok_no_failure c sg r b :
  Rev2.confirm_status c r = Ok b -> onchain_failure (EvDirect sg r) = false.
Proof.
  destruct r as [| |[[st_e cs]|]]; simpl; try discriminate; auto.
  destruct st_e; simpl; congruence.
Qed.

Ltac keep_no_failure :=
  cbn [trace];
  repeat (apply Forall_snoc_false;
          [|first [ reflexivity
                  | eapply rev1_confirm_ok_no_failure; eassumption
                  | eapply rev2_confirm_ok_no_failure; eassumption ]]);
  assumption.

Ltac finish_onchain HF :=
  let pre := fresh "pre" in let sg' := fresh "sg'" in
  let err := fresh "err" in let cs := fresh "cs" in
  let post := fresh "post" in let H := fresh "H" in
  intros pre sg' err cs post H; cbn [fst snd trace] in *;
  locate_event HF H;
  match goal with
  | Hd : env_direct _ _ _ = _ |- _ => rewrite Hd in *
  end;
  cbn in *; try discriminate; split; congruence.

Lemma rev1_loop_onchain_terminal (e : Env) fuel payer tx lv :
  forall bh sg st,
    Forall (fun ev => onchain_failure ev = false) (trace st) ->
    onchain_terminal (fst (Rev1.retry_loop fuel payer tx lv bh sg e st))
      (trace (snd (Rev1.retry_loop fuel payer tx lv bh sg e st))).
Proof.
  induction fuel as [|fuel IH]; intros bh sg st HF.
  - intros pre sg' err cs post H. cbn in H. rewrite H in HF.
    apply Forall_app in HF as [_ HF]. inversion HF. discriminate.
  - cbn [Rev1.retry_loop]. unfold_rpc.
    destruct (bh <? lv) eqn:Hlt; split_answers;
      try first [ apply IH; keep_no_failure | finish_onchain HF ].
Qed.

Lemma rev2_loop_onchain_terminal (e : Env) fuel c tx lv :
  forall bh sg st,
    Forall (fun ev => onchain_failure ev = false) (trace st) ->
    onchain_terminal (fst (Rev2.retry_loop fuel c tx lv bh sg e st))
      (trace (snd (Rev2.retry_loop fuel c tx lv bh sg e st))).
Proof.
  induction fuel as [|fuel IH]; intros bh sg st HF.
  - intros pre sg' err cs post H. cbn in H. rewrite H in HF.
    apply Forall_app in HF as [_ HF]. inversion HF. discriminate.
  - cbn [Rev2.retry_loop]. unfold_rpc.
    destruct (lt_opt bh lv) eqn:Hlt; split_answers;
      first [ apply IH; keep_no_failure | finish_onchain HF ].
Qed.

(** A submission is the first [getBlockHeight] followed by the loop. *)
Lemma rev1_run_loop (e : Env) fuel tx payer account endpoint :
  exists tx2,
    run (Rev1.sendAndConfirmTransaction fuel tx payer account endpoint) e =
    Rev1.retry_loop fuel payer tx2 (env_height e 0 + 100) (env_height e 0) None e
      (mkState 1 0 0 0 [EvHeight (env_height e 0)]).
Proof.
  unfold run, Rev1.sendAndConfirmTransaction, Rev1.fetchFees.
  unfold bind at 1.
  destruct (rev1_fetch_cases (env_fee e) (Some account) endpoint) as [H|[fees H]];
    rewrite H; eexists; reflexivity.
Qed.

Lemma rev2_run_loop (e : Env) fuel tx account c endpoint :
  exists tx1,
    run (Rev2.sendAndConfirmTransaction fuel tx account c endpoint) e =
    Rev2.retry_loop fuel c tx1 (lastValidBlockHeight tx) (env_height e 0) None e
      (mkState 1 0 0 0 [EvHeight (env_height e 0)]).
Proof.
  unfold run, Rev2.sendAndConfirmTransaction, Rev2.fetchFees.
  unfold bind at 1.
  destruct (rev2_fetch_cases (env_fee e) (Some account) endpoint) as [H|[H|[fees H]]];
    rewrite H; eexists; reflexivity.
Qed.

(** C3: in both revisions, when [getSignatureStatuses] answers a status
    whose [err] is not null, that lookup is the last call of the submission
    (no further broadcast or lookup follows) and the submission rejects with
    the wrapped on-chain error. *)
Theorem onchain_error_is_terminal :
  forall (e : Env) fuel tx payer account endpoint c,
    (forall pre sg err cs post,
       trace (snd (run (Rev1.sendAndConfirmTransaction fuel tx payer account endpoint) e))
         = pre ++ EvDirect sg (DResult (Some (mkStatus (Some err) cs))) :: post ->
       post = [] /\
       fst (run (Rev1.sendAndConfirmTransaction fuel tx payer account endpoint) e)
         = Throw (ConfirmFailed (TxFailedWith err))) /\
    (forall pre sg err cs post,
       trace (snd (run (Rev2.sendAndConfirmTransaction fuel tx account c endpoint) e))
         = pre ++ EvDirect sg (DResult (Some (mkStatus (Some err) cs))) :: post ->
       post = [] /\
       fst (run (Rev2.sendAndConfirmTransaction fuel tx account c endpoint) e)
         = Throw (ConfirmFailed (TxFailedWith err))).
Proof.
  intros e fuel tx payer account endpoint c. split.
  - destruct (rev1_run_loop e fuel tx payer account endpoint) as [tx2 ->].
    apply rev1_loop_onchain_terminal. repeat constructor.
  - destruct (rev2_run_loop e fuel tx account c endpoint) as [tx1 ->].
    apply rev2_loop_onchain_terminal. repeat constructor.
Qed.

Lemma onchain_error_is_terminal_witness :
  fst (run (Rev1.sendAndConfirmTransaction 5 tx0 "payer" "acct" "url") env_onchain_fail)
    = Throw (ConfirmFailed (TxFailedWith "InstructionError"%string)) /\
  fst (run (Rev2.sendAndConfirmTransaction 5 tx0 "acct" Confirmed "url") env_onchain_fail)
    = Throw (ConfirmFailed (TxFailedWith "InstructionError"%string)).
Proof.
  split.
  - apply (proj1 (onchain_error_is_terminal env_onchain_fail 5 tx0 "payer" "acct" "url" Confirmed)
      (firstn 2 (trace (snd (run (Rev1.sendAndConfirmTransaction 5 tx0 "payer" "acct" "url")
                                 env_onchain_fail))))
      (Some "5sig"%string) "InstructionError"%string (Some Confirmed) []).
    vm_compute. reflexivity.
  - apply (proj2 (onchain_error_is_terminal env_onchain_fail 5 tx0 "payer" "acct" "url" Confirmed)
      (firstn 2 (trace (snd (run (Rev2.sendAndConfirmTransaction 5 tx0 "acct" Confirmed "url")
                                 env_onchain_fail))))
      (Some "5sig"%string) "InstructionError"%string (Some Confirmed) []).
    vm_compute. reflexivity.
Defined.

(** * Check after the loop *)

Lemma split_unique (Q : event -> bool) tpre x0 ext pre x post :
  tpre ++ x0 :: ext = pre ++ x :: post ->
  Forall (fun ev => Q ev = false) tpre ->
  Forall (fun ev => Q ev = false) ext ->
  Q x = true ->
  pre = tpre /\ x = x0 /\ post = ext.
Proof.
  intros H0 HF HE. revert pre H0. induction HF as [|y l Hy HF IH]; intros pre H Hx.
  - destruct pre as [|z pre]; simpl in H; inversion H; subst; [auto|].
    rewrite Forall_forall in HE.
    assert (Hin : In x (pre ++ x :: post)) by (apply in_elt).
    apply HE in Hin. congruence.
  - destruct pre as [|z pre]; simpl in H; inversion H; subst; [congruence|].
    destruct (IH pre) as [-> [-> ->]]; auto.
Qed.

Lemma last_sent_snoc l x :
  last_sent (l ++ [x]) =
  match x with EvSend _ (SendOk sg) => Some sg | _ => last_sent l end.
Proof.
  induction l as [|y r IH]; simpl.
  - destruct x as [| ? [|] | |]; reflexivity.
  - rewrite IH. destruct y as [| ? [|] | |]; try reflexivity.
    destruct x as [| ? [|] | |]; try reflexivity; destruct (last_sent r); reflexivity.
Qed.

Lemma rev1_confirm_not_expired r : Rev1.confirm_status r <> Throw Expired.
Proof. destruct r as [| |[[[] ?]|]]; simpl; congruence. Qed.

Lemma rev1_by_address_not_expired sg r :
  Rev1.confirm_by_address sg r <> Throw Expired.
Proof.
  destruct r as [| |[l|]]; simpl; try congruence.
  destruct (Rev1.find_entry sg l) as [[? [] ?]|]; simpl; congruence.
Qed.

Lemma rev2_confirm_not_expired c r : Rev2.confirm_status c r <> Throw Expired.
Proof. destruct r as [| |[[[] ?]|]]; simpl; congruence. Qed.

Lemma height_fails_lt lv h :
  lv <= h -> height_fails (fun h => h <? lv) (EvHeight h) = true.
Proof. intros H. simpl. apply negb_true_iff, Z.ltb_ge. exact H. Qed.

(** An event satisfying [Q] in [l ++ ext], when [l] has none and [ext] is a
    short explicit list: name the position. *)
Ltac locate_event_by HF HQ H :=
  rewrite <- ?app_assoc in H; cbn [app] in H;
  eapply split_in_ext in H; [|exact HF|exact HQ];
  let pre' := fresh "pre'" in
  destruct H as [pre' H];
  destruct pre' as [|? [|? [|? [|? ?]]]]; cbn [app] in H; inversion H; subst.

Ltac not_expired :=
  let Hr := fresh "Hr" in
  intros Hr; cbn [fst] in Hr; try discriminate; inversion Hr; subst; exfalso;
  first [ eapply rev1_confirm_not_expired; eassumption
        | eapply rev1_by_address_not_expired; eassumption
        | eapply rev2_confirm_not_expired; eassumption ].

Ltac pick_final_rev1 :=
  unfold final_check_rev1; eexists;
  first [ left; split; [reflexivity|]; left; split; [eassumption|reflexivity]
        | left; split; [reflexivity|]; right; eexists; split; [eassumption|reflexivity]
        | right; eexists; split; [reflexivity|]; split; [eassumption|];
          first [ left; split; [eassumption|reflexivity]
                | right; left; split; [eassumption|reflexivity]
                | right; right; eexists; split; [eassumption|reflexivity] ] ].

Lemma rev1_loop_expiry (e : Env) fuel payer tx lv :
  forall bh sg st tpre,
    trace st = tpre ++ [EvHeight bh] ->
    Forall (fun ev => height_fails (fun h => h <? lv) ev = false) tpre ->
    last_sent tpre = sg ->
    (bh < lv \/ sg <> None) ->
    expiry_spec_rev1 payer lv (fst (Rev1.retry_loop fuel payer tx lv bh sg e st))
      (trace (snd (Rev1.retry_loop fuel payer tx lv bh sg e st))).
Proof.
  induction fuel as [|fuel IH]; intros bh sg st tpre Htr HF Hls Hsg.
  - split; cbn; [intros; congruence|discriminate].
  - cbn [Rev1.retry_loop]. unfold_rpc.
    destruct (bh <? lv) eqn:Hlt; split_answers.
    (* inside the window: no height at or above [lv] is observed before the
       recursive call *)
    all: try (assert (HF' : Forall (fun ev => height_fails (fun h => h <? lv) ev = false)
                              (trace st))
              by (rewrite Htr; apply Forall_app; split;
                  [exact HF|constructor; [simpl; rewrite Hlt; reflexivity|constructor]]);
              split;
              [ let pre := fresh "pre" in let h := fresh "h" in
                let post := fresh "post" in let Hs := fresh "Hs" in
                let Hge := fresh "Hge" in let Hnf := fresh "Hnf" in
                intros pre h post Hs Hge Hnf; cbn [fst snd trace] in *;
                try congruence;
                locate_event_by HF' (height_fails_lt lv h Hge) Hs
              | not_expired ]; fail).
    (* the next iteration *)
    all: try (eapply IH;
              [ cbn [trace]; reflexivity
              | rewrite Htr; rewrite <- !app_assoc; cbn [app];
                apply Forall_app; split; [exact HF|];
                repeat constructor; simpl; rewrite ?Hlt; reflexivity
              | rewrite !last_sent_snoc; reflexivity
              | right; discriminate ]; fail).
    (* the check after the loop *)
    all: assert (HF' : Forall (fun ev => height_fails (fun h => h <? lv) ev = false)
                         [EvDirect sg (env_direct e (n_direct st) sg);
                          EvByAddr payer sg (env_addr e (n_addr st) payer sg)])
           by (repeat constructor).
    all: assert (Hsome : sg <> None) by (destruct Hsg as [Hb|Hb]; [apply Z.ltb_lt in Hb; congruence|exact Hb]).
    all: split;
      [ let pre := fresh "pre" in let h := fresh "h" in
        let post := fresh "post" in let Hs := fresh "Hs" in
        let Hge := fresh "Hge" in let Hnf := fresh "Hnf" in
        intros pre h post Hs Hge Hnf; cbn [fst snd trace] in *;
        first
          [ congruence
          | rewrite Htr in Hs; rewrite <- !app_assoc in Hs; cbn [app] in Hs;
            destruct (split_unique (height_fails (fun h => h <? lv)) _ _ _ _ _ _ Hs HF
                        ltac:(repeat constructor) (height_fails_lt lv h Hge))
              as [-> [_ ->]];
            rewrite Hls; split; [pick_final_rev1|exact Hsome] ]
      | first [ not_expired
              | let Hr := fresh "Hr" in
                intros Hr; cbn [fst snd trace];
                exists tpre, bh, (env_direct e (n_direct st) sg),
                  (env_addr e (n_addr st) payer sg);
                rewrite Htr, Hls; rewrite <- !app_assoc;
                repeat split; try assumption; apply Z.ltb_ge; exact Hlt ] ].
Qed.

Lemma height_fails_opt lv h :
  lt_opt h lv = false -> height_fails (fun h => lt_opt h lv) (EvHeight h) = true.
Proof. intros H. simpl. rewrite H. reflexivity. Qed.

(** [Rev2] inside the window: the height is never read again, so the loop
    never leaves through its guard and never raises [Expired]. *)
Lemma rev2_loop_in_window (e : Env) fuel c tx lv :
  forall bh sg st,
    lt_opt bh lv = true ->
    Forall (fun ev => height_fails (fun h => lt_opt h lv) ev = false) (trace st) ->
    expiry_spec_rev2 c lv (fst (Rev2.retry_loop fuel c tx lv bh sg e st))
      (trace (snd (Rev2.retry_loop fuel c tx lv bh sg e st))).
Proof.
  induction fuel as [|fuel IH]; intros bh sg st Hlt HF.
  - split; cbn; [intros; congruence|discriminate].
  - cbn [Rev2.retry_loop]. unfold_rpc. rewrite Hlt. split_answers.
    all: first
      [ eapply IH; [exact Hlt|]; cbn [trace];
        repeat (apply Forall_snoc_false; [|reflexivity]); exact HF
      | split;
        [ let pre := fresh "pre" in let h := fresh "h" in
          let post := fresh "post" in let Hs := fresh "Hs" in
          let Hge := fresh "Hge" in let Hnf := fresh "Hnf" in
          intros pre h post Hs Hge Hnf; cbn [fst snd trace] in *;
          first [ congruence
                | locate_event_by HF (height_fails_opt lv h Hge) Hs ]
        | not_expired ] ].
Qed.

Ltac pick_final_rev2 :=
  unfold final_check_rev2; eexists; split; [reflexivity|];
  first [ left; split; [eassumption|reflexivity]
        | right; left; split; [eassumption|reflexivity]
        | right; right; eexists; split; [eassumption|reflexivity] ].

Lemma rev2_loop_expiry (e : Env) fuel c tx lv :
  forall bh sg st tpre,
    trace st = tpre ++ [EvHeight bh] ->
    Forall (fun ev => height_fails (fun h => lt_opt h lv) ev = false) tpre ->
    last_sent tpre = sg ->
    expiry_spec_rev2 c lv (fst (Rev2.retry_loop fuel c tx lv bh sg e st))
      (trace (snd (Rev2.retry_loop fuel c tx lv bh sg e st))).
Proof.
  intros bh sg st tpre Htr HF Hls.
  destruct (lt_opt bh lv) eqn:Hlt.
  - apply rev2_loop_in_window; [exact Hlt|].
    rewrite Htr. apply Forall_app. split; [exact HF|].
    constructor; [simpl; rewrite Hlt; reflexivity|constructor].
  - destruct fuel as [|fuel]; [split; cbn; [intros; congruence|discriminate]|].
    cbn [Rev2.retry_loop]. unfold_rpc. rewrite Hlt. split_answers.
    all: split;
      [ let pre := fresh "pre" in let h := fresh "h" in
        let post := fresh "post" in let Hs := fresh "Hs" in
        let Hge := fresh "Hge" in let Hnf := fresh "Hnf" in
        intros pre h post Hs Hge Hnf; cbn [fst snd trace] in *;
        first
          [ congruence
          | rewrite Htr in Hs; rewrite <- !app_assoc in Hs; cbn [app] in Hs;
            destruct (split_unique (height_fails (fun h => lt_opt h lv)) _ _ _ _ _ _ Hs HF
                        ltac:(repeat constructor) (height_fails_opt lv h Hge))
              as [-> [_ ->]];
            rewrite Hls; pick_final_rev2 ]
      | first [ not_expired
              | let Hr := fresh "Hr" in
                intros Hr; cbn [fst snd trace];
                exists tpre, bh, (env_direct e (n_direct st) sg);
                rewrite Htr, Hls; rewrite <- !app_assoc;
                repeat split; assumption ] ].
Qed.

(** C2: when the loop observes a block height at or above
    [lastValidBlockHeight] and the submission finishes, exactly one more
    confirmation check follows, for the last broadcast signature; the
    submission returns that signature if the check reports it confirmed,
    rejects with the lookup's error if a lookup rejects, and raises [Expired]
    only when the check reports it unconfirmed ([expiry_spec_rev1]).  In
    [Rev1] the check consults both read paths; in [Rev2] it consults
    [confirmTransaction], and since [Rev2] never re-reads the height, its
    loop only leaves through the guard before any broadcast, so the check
    is made on the [undefined] signature ([last_sent] of a trace with no
    broadcast is [None]). *)
Theorem check_after_window_expiry :
  forall (e : Env) fuel tx payer account endpoint c,
    expiry_spec_rev1 payer (env_height e 0 + 100)
      (fst (run (Rev1.sendAndConfirmTransaction fuel tx payer account endpoint) e))
      (trace (snd (run (Rev1.sendAndConfirmTransaction fuel tx payer account endpoint) e))) /\
    expiry_spec_rev2 c (lastValidBlockHeight tx)
      (fst (run (Rev2.sendAndConfirmTransaction fuel tx account c endpoint) e))
      (trace (snd (run (Rev2.sendAndConfirmTransaction fuel tx account c endpoint) e))).
Proof.
  intros e fuel tx payer account endpoint c. split.
  - destruct (rev1_run_loop e fuel tx payer account endpoint) as [tx2 ->].
    apply (rev1_loop_expiry e fuel payer tx2 _ _ _ _ []); try reflexivity.
    + constructor.
    + left. lia.
  - destruct (rev2_run_loop e fuel tx account c endpoint) as [tx1 ->].
    apply (rev2_loop_expiry e fuel c tx1 _ _ _ _ []); try reflexivity.
    constructor.
Qed.

Example rev1_expires_after_final_check :
  run (Rev1.sendAndConfirmTransaction 3 tx0 "payer" "acct" "url") env_never_lands =
  (Throw Expired,
   snd (run (Rev1.sendAndConfirmTransaction 3 tx0 "payer" "acct" "url") env_never_lands)) /\
  List.length (trace (snd (run (Rev1.sendAndConfirmTransaction 3 tx0 "payer" "acct" "url")
                             env_never_lands))) = 7%nat.
Proof. split; vm_compute; reflexivity. Qed.

(** * Read paths *)

Lemma split_app_cases (l ext pre post : list event) (x : event) :
  l ++ ext = pre ++ x :: post ->
  (exists post0, l = pre ++ x :: post0 /\ post = post0 ++ ext) \/
  (exists pre', ext = pre' ++ x :: post /\ pre = l ++ pre').
Proof.
  revert pre. induction l as [|y l IH]; intros pre H.
  - right. exists pre. auto.
  - destruct pre as [|z pre]; simpl in H; inversion H; subst.
    + left. exists l. auto.
    + destruct (IH pre H2) as [[post0 [-> ->]]|[pre' [-> ->]]].
      * left. exists post0. auto.
      * right. exists pre'. auto.
Qed.

Lemma decisive_direct sg rd :
  decisive (EvDirect sg rd) = false -> Rev1.confirm_status rd = Ok false.
Proof. simpl. destruct (Rev1.confirm_status rd) as [[]| |]; congruence. Qed.

Lemma decisive_by_address a sg ra :
  decisive (EvByAddr a sg ra) = false -> Rev1.confirm_by_address sg ra = Ok false.
Proof. simpl. destruct (Rev1.confirm_by_address sg ra) as [[]| |]; congruence. Qed.

Lemma not_decisive_in (l pre post : list event) x :
  Forall (fun ev => decisive ev = false) l -> l = pre ++ x :: post ->
  decisive x = false.
Proof.
  intros HF ->. apply Forall_app in HF as [_ HF]. inversion HF. assumption.
Qed.

Ltac split_on_trace Hs :=
  cbn [fst snd trace] in *; rewrite <- ?app_assoc in Hs; cbn [app] in Hs;
  apply split_app_cases in Hs;
  let post0 := fresh "post0" in let Hl := fresh "Hl" in
  let Hp := fresh "Hp" in let pre' := fresh "pre'" in
  let He := fresh "He" in
  destruct Hs as [[post0 [Hl Hp]]|[pre' [He Hp]]];
  [ | destruct pre' as [|? [|? [|? [|? ?]]]]; cbn [app] in He;
      inversion He; subst ].

Ltac settle_read_path HF HP :=
  first
    [ exfalso;
      match goal with
      | Hl : _ = _ ++ _ :: _ |- _ =>
          pose proof (not_decisive_in _ _ _ _ HF Hl) as Hd;
          first [ apply decisive_direct in Hd | apply decisive_by_address in Hd ];
          congruence
      end
    | exfalso; eapply app_cons_not_nil; eassumption
    | congruence
    | split; [reflexivity|congruence]
    | do 2 eexists; reflexivity
    | match goal with
      | Hl : trace _ = _ ++ EvDirect _ _ :: ?post0, Hc : Rev1.confirm_status _ = Ok false
        |- _ =>
          destruct (HP _ _ _ _ Hl Hc) as [? [? ->]]; subst; do 2 eexists; reflexivity
      end ].

Lemma rev1_loop_read_paths (e : Env) fuel payer tx lv :
  forall bh sg st,
    Forall (fun ev => decisive ev = false) (trace st) ->
    direct_then_reverse payer (trace st) ->
    read_paths_spec payer (fst (Rev1.retry_loop fuel payer tx lv bh sg e st))
      (trace (snd (Rev1.retry_loop fuel payer tx lv bh sg e st))).
Proof.
  induction fuel as [|fuel IH]; intros bh sg st HF HP.
  - cbn [Rev1.retry_loop out_of_fuel fst snd].
    repeat split; intros; try (exfalso; eapply not_decisive_in in HF; [|eassumption];
      first [ apply decisive_direct in HF | apply decisive_by_address in HF ]; congruence).
    eapply HP; eassumption.
  - cbn [Rev1.retry_loop]. unfold_rpc.
    destruct (bh <? lv) eqn:Hlt; split_answers;
      try first
        [ apply IH;
          [ cbn [trace]; rewrite <- ?app_assoc; apply Forall_app; split; [exact HF|];
            repeat constructor; cbn [decisive];
            repeat match goal with H : _ = Ok false |- _ => rewrite H end; reflexivity
          | unfold direct_then_reverse; intros * Hs Hc; split_on_trace Hs;
            settle_read_path HF HP ]
        | unfold read_paths_spec, direct_then_reverse;
          refine (conj _ (conj _ (conj _ _)));
          intros * Hs Hc; split_on_trace Hs; settle_read_path HF HP ].
Qed.

(** C4 (amended). In [Rev1] the two read paths decide a submission as
    follows: a status lookup that reports success ends it with the
    signature; a status lookup that finds nothing (no result, or a status
    that is neither confirmed nor finalized) is followed by the reverse
    lookup on the fee payer, and a reverse lookup that reports success ends
    it with the signature; but a status lookup that rejects (HTTP error,
    network error) ends the submission with that error, so the reverse path
    is never consulted. *)
Theorem read_paths_decide_submission (e : Env) fuel tx payer account endpoint :
  read_paths_spec payer
    (fst (run (Rev1.sendAndConfirmTransaction fuel tx payer account endpoint) e))
    (trace (snd (run (Rev1.sendAndConfirmTransaction fuel tx payer account endpoint) e))).
Proof.
  destruct (rev1_run_loop e fuel tx payer account endpoint) as [tx2 ->].
  apply rev1_loop_read_paths; cbn [trace].
  - repeat constructor.
  - intros pre sg rd post Hs _.
    destruct pre as [|? pre]; cbn [app] in Hs; inversion Hs as [[Hx Hn]].
    exfalso; eapply app_cons_not_nil; exact Hn.
Qed.

(** C4 counterexample. The status lookup fails with HTTP 502 while the
    reverse lookup on the fee payer lists the signature as confirmed: the
    submitter does not return the signature, it fails with the status
    lookup's error. *)
Lemma status_error_hides_reverse_path :
  Rev1.confirm_by_address (Some "sigA"%string)
    (env_addr env_status_down 0 "payer" (Some "sigA"%string)) = Ok true /\
  fst (run (Rev1.sendAndConfirmTransaction 5 tx0 "payer" "acct" "url") env_status_down)
    = Throw (ConfirmFailed (HttpStatus 502)).
Proof. vm_compute. split; reflexivity. Qed.

(** * Commitment levels *)

(** C5 (the code diverges). [at_least] orders processed < confirmed <
    finalized.  The check of [part_001] accepts a status exactly when it is
    at least confirmed; the check of [part_002] compares the reported level
    with the requested one by strict equality, so a finalized status does
    not satisfy a request for confirmed. *)
Theorem finalized_rejected_for_confirmed :
  (forall s : option commitment,
     Rev1.confirm_status (DResult (Some (mkStatus None s))) =
     Ok (match s with Some c => at_least c Confirmed | None => false end)) /\
  at_least Finalized Confirmed = true /\
  Rev2.confirm_status Confirmed (DResult (Some (mkStatus None (Some Finalized))))
    = Ok false.
Proof.
  split; [|split; reflexivity].
  intros [[| |]|]; reflexivity.
Qed.

(** * Balance deltas *)

Lemma balance_fraction_nonneg (z : Z) :
  (0 <= inject_Z (Z.abs z) / inject_Z Meteora.LAMPORTS_PER_SOL)%Q.
Proof.
  unfold Qdiv. apply Qmult_le_0_compat.
  - unfold Qle; simpl; lia.
  - apply Qinv_le_0_compat. unfold Qle; simpl; lia.
Qed.

Lemma poll_from_map (g : Meteora.ParsedTransaction -> Meteora.ParsedTransaction)
  attempts (k n : nat) :
  Meteora.poll_from (fun i => option_map g (attempts i)) k n =
  option_map g (Meteora.poll_from attempts k n).
Proof.
  revert k; induction n as [|n IH]; intros k; cbn [Meteora.poll_from].
  - reflexivity.
  - destruct (attempts k); cbn [option_map]; [reflexivity | apply IH].
Qed.

(** C9 (amended). What the two balance-delta observations of
    [MeteoraController] return.  If no transaction details arrive within 20
    attempts, both return a change of 0 and a fee of 0.  Otherwise the token
    observation returns the signed change [post - pre] of the owner's
    [uiAmount] (an absent entry counts as 0) and, separately, the fee in
    SOL; the native observation returns [|post - pre| / 10^9] for the
    account index (when both balances exist), which is never negative, so a
    debit is reported as a positive amount, and does not depend on the fee,
    and, separately, the same fee: the fee is never subtracted. *)
Theorem balance_delta_observed attempts mint owner accountIndex :
  match Meteora.poll attempts with
  | None =>
      Meteora.extractTokenBalanceChangeAndFee attempts mint owner
        = Meteora.mkChange (Some 0%Q) 0%Q /\
      Meteora.extractAccountBalanceChangeAndFee attempts accountIndex
        = Meteora.mkChange (Some 0%Q) 0%Q
  | Some tx =>
      Meteora.balanceChange (Meteora.extractTokenBalanceChangeAndFee attempts mint owner)
        = Some (Meteora.ui_amount (match Meteora.meta tx with
                                   | Some m => Meteora.or_empty (Meteora.postTokenBalances m)
                                   | None => [] end) mint owner -
                Meteora.ui_amount (match Meteora.meta tx with
                                   | Some m => Meteora.or_empty (Meteora.preTokenBalances m)
                                   | None => [] end) mint owner)%Q /\
      Meteora.fee (Meteora.extractTokenBalanceChangeAndFee attempts mint owner)
        = Meteora.fee_in_sol tx /\
      Meteora.fee (Meteora.extractAccountBalanceChangeAndFee attempts accountIndex)
        = Meteora.fee_in_sol tx /\
      (forall a b,
         nth_error (match Meteora.meta tx with
                    | Some m => Meteora.or_empty (Meteora.postBalances m)
                    | None => [] end) accountIndex = Some a ->
         nth_error (match Meteora.meta tx with
                    | Some m => Meteora.or_empty (Meteora.preBalances m)
                    | None => [] end) accountIndex = Some b ->
         Meteora.balanceChange (Meteora.extractAccountBalanceChangeAndFee attempts accountIndex)
           = Some (inject_Z (Z.abs (a - b)) / inject_Z Meteora.LAMPORTS_PER_SOL)%Q /\
         ((a < b)%Z -> 0 < inject_Z (Z.abs (a - b)) / inject_Z Meteora.LAMPORTS_PER_SOL)%Q) /\
      (forall d, Meteora.balanceChange
                   (Meteora.extractAccountBalanceChangeAndFee attempts accountIndex) = Some d ->
                 (0 <= d)%Q) /\
      (forall f, Meteora.balanceChange
                   (Meteora.extractAccountBalanceChangeAndFee
                      (fun k => option_map (Meteora.with_fee f) (attempts k)) accountIndex)
                 = Meteora.balanceChange
                     (Meteora.extractAccountBalanceChangeAndFee attempts accountIndex))
  end.
Proof.
  unfold Meteora.extractTokenBalanceChangeAndFee, Meteora.extractAccountBalanceChangeAndFee.
  destruct (Meteora.poll attempts) as [tx|] eqn:Hp; [|split; reflexivity].
  split; [reflexivity|]. split; [reflexivity|]. split; [reflexivity|]. split; [|split].
  - intros a b Ha Hb. cbn [Meteora.balanceChange]. rewrite Ha, Hb.
    split; [reflexivity|]. intros Hlt. apply Qlt_shift_div_l; [reflexivity|].
    rewrite Qmult_0_l. change 0%Q with (inject_Z 0). rewrite <- Zlt_Qlt. lia.
  - cbn [Meteora.balanceChange]. intros d.
    repeat match goal with |- context [nth_error ?l accountIndex] => destruct (nth_error l accountIndex) end;
      intros H; inversion H; apply balance_fraction_nonneg.
  - intros f. unfold Meteora.poll. rewrite poll_from_map.
    unfold Meteora.poll in Hp. rewrite Hp. cbn [option_map].
    unfold Meteora.with_fee. destruct tx as [[m|]]; reflexivity.
Qed.

(** C9 counterexample. A native transfer debits account 0 by one SOL
    (before 2 SOL, after 1 SOL) and pays 5000 lamports: the observation
    reports a change of +1 SOL, not the negative after - before, and the fee
    is reported separately rather than subtracted. *)
Lemma native_debit_reported_positive :
  match Meteora.balanceChange
          (Meteora.extractAccountBalanceChangeAndFee (fun _ => Some tx_debit) 0) with
  | Some d => (d == 1)%Q
  | None => False
  end /\
  (Meteora.fee (Meteora.extractAccountBalanceChangeAndFee (fun _ => Some tx_debit) 0)
     == 5000 # 1000000000)%Q.
Proof. vm_compute. split; reflexivity. Qed.

(** * Pool cache *)

Section PoolCache.

Context {Pool : Type} (is_public_key : string -> bool).

Lemma nodup_snd_unique (l : list (nat * string)) p1 p2 a :
  NoDup (List.map snd l) -> In (p1, a) l -> In (p2, a) l -> p1 = p2.
Proof.
  induction l as [|[q b] r IH]; cbn [List.map snd]; intros Hd H1 H2; [contradiction|].
  inversion Hd as [|? ? Hnin Hd']; subst.
  destruct H1 as [E1|H1], H2 as [E2|H2].
  - inversion E1; inversion E2; congruence.
  - inversion E1; subst. exfalso; apply Hnin.
    apply (in_map snd) in H2; exact H2.
  - inversion E2; subst. exfalso; apply Hnin.
    apply (in_map snd) in H1; exact H1.
  - eauto.
Qed.

Lemma nodup_snoc (l : list string) a : NoDup l -> ~ In a l -> NoDup (l ++ [a]).
Proof.
  intros Hd Hn. apply (Permutation_NoDup (l := a :: l)).
  - apply Permutation_cons_append.
  - constructor; assumption.
Qed.

Lemma empty_cache_inv : Dlmm.cache_inv (@Dlmm.empty_cache Pool).
Proof.
  unfold Dlmm.cache_inv; cbn.
  repeat split; intros *; try (intros H; destruct k; discriminate);
    try contradiction; try constructor; intros; auto.
Qed.

Lemma get_inv (c : Dlmm.Cache Pool) a :
  Dlmm.cache_inv c -> Dlmm.cache_inv (snd (Dlmm.getDlmmPool is_public_key c a)).
Proof.
  intros Hinv. pose proof Hinv as (Hi & Hd & Hs & Hn & Hv & Hu).
  unfold Dlmm.getDlmmPool.
  destruct (Dlmm.dlmmPools c a) eqn:Ep; [exact Hinv|].
  destruct (Dlmm.dlmmPoolPromises c a) eqn:Eq; [exact Hinv|].
  destruct (is_public_key a); [|exact Hinv].
  cbn [snd Dlmm.creates Dlmm.settled Dlmm.dlmmPools Dlmm.dlmmPoolPromises].
  assert (Hnew : forall pid, ~ In (pid, a) (Dlmm.creates c)).
  { intros pid Hin. destruct (Hv pid a Hin) as [[H _]|[H [[p H'] _]]]; congruence. }
  assert (Hnew' : ~ In a (List.map snd (Dlmm.creates c))).
  { intros Hin. apply in_map_iff in Hin as [[q b] [Eb Hin]]. cbn in Eb; subst.
    eapply Hnew; exact Hin. }
  unfold Dlmm.map_set, Dlmm.cache_inv.
  cbn [snd Dlmm.creates Dlmm.settled Dlmm.dlmmPools Dlmm.dlmmPoolPromises].
  refine (conj _ (conj _ (conj _ (conj _ (conj _ _))))).
  - intros k x Hk. destruct (Nat.ltb_spec k (List.length (Dlmm.creates c))).
    + rewrite nth_error_app1 in Hk by assumption. eauto.
    + rewrite nth_error_app2 in Hk by assumption.
      destruct (k - List.length (Dlmm.creates c))%nat eqn:Ek; cbn in Hk.
      * inversion Hk; cbn; lia.
      * destruct n; discriminate.
  - rewrite map_app. apply nodup_snoc; assumption.
  - intros k Hk. rewrite length_app; cbn. specialize (Hs k Hk). lia.
  - intros a' Ha'. destruct (String.eqb_spec a' a) as [->|Hne].
    + exfalso. apply Ha'. exists (List.length (Dlmm.creates c)).
      apply in_or_app; right; left; reflexivity.
    + apply Hn. intros [pid Hin]. apply Ha'. exists pid. apply in_or_app; left; exact Hin.
  - intros pid a' Hin. apply in_app_or in Hin as [Hin|[E|[]]].
    + destruct (String.eqb_spec a' a) as [->|Hne]; [exfalso; eapply Hnew; eauto|].
      apply Hv; exact Hin.
    + inversion E; subst. rewrite String.eqb_refl. left; split; [reflexivity|exact Ep].
  - intros pid a' Hin Hns. apply in_app_or in Hin as [Hin|[E|[]]].
    + destruct (String.eqb_spec a' a) as [->|Hne]; [exfalso; eapply Hnew; eauto|].
      apply Hu; assumption.
    + inversion E; subst. rewrite String.eqb_refl. split; [reflexivity|exact Ep].
Qed.

Lemma settle_inv (c : Dlmm.Cache Pool) pid o :
  Dlmm.cache_inv c -> Dlmm.cache_inv (Dlmm.settle c pid o).
Proof.
  intros Hinv. pose proof Hinv as (Hi & Hd & Hs & Hn & Hv & Hu).
  unfold Dlmm.settle.
  destruct (existsb (Nat.eqb pid) (Dlmm.settled c)) eqn:Ex; [exact Hinv|].
  assert (Hns : ~ In pid (Dlmm.settled c)).
  { intros Hin. assert (existsb (Nat.eqb pid) (Dlmm.settled c) = true) as Ht.
    { apply existsb_exists. exists pid; split; [exact Hin|apply Nat.eqb_refl]. }
    congruence. }
  destruct (nth_error (Dlmm.creates c) pid) as [[q addr]|] eqn:Ent; [|exact Hinv].
  assert (q = pid) as -> by (apply Hi in Ent; exact Ent).
  assert (Hin : In (pid, addr) (Dlmm.creates c)) by (eapply nth_error_In; eauto).
  assert (Hlt : (pid < List.length (Dlmm.creates c))%nat).
  { apply nth_error_Some. congruence. }
  destruct (Hu pid addr Hin Hns) as [Hq Hp].
  destruct o as [pool|].
  - cbn [Dlmm.creates Dlmm.settled Dlmm.dlmmPools Dlmm.dlmmPoolPromises].
    unfold Dlmm.map_set, Dlmm.map_delete, Dlmm.cache_inv.
    cbn [Dlmm.creates Dlmm.settled Dlmm.dlmmPools Dlmm.dlmmPoolPromises].
    refine (conj Hi (conj Hd (conj _ (conj _ (conj _ _))))).
    + intros k Hk. apply in_app_or in Hk as [Hk|[<-|[]]]; auto.
    + intros a' Ha'. destruct (String.eqb_spec a' addr) as [->|Hne].
      * exfalso; apply Ha'; eauto.
      * apply Hn; exact Ha'.
    + intros pid2 a' Hin2. destruct (String.eqb_spec a' addr) as [->|Hne].
      * assert (pid2 = pid) as -> by (eapply nodup_snd_unique; eauto).
        right. split; [reflexivity|]. split; [eauto|].
        apply in_or_app; right; left; reflexivity.
      * destruct (Hv pid2 a' Hin2) as [H|[H1 [H2 H3]]]; [left; exact H|].
        right. split; [exact H1|]. split; [exact H2|]. apply in_or_app; left; exact H3.
    + intros pid2 a' Hin2 Hns2. destruct (String.eqb_spec a' addr) as [->|Hne].
      * assert (pid2 = pid) as -> by (eapply nodup_snd_unique; eauto).
        exfalso; apply Hns2; apply in_or_app; right; left; reflexivity.
      * apply Hu; [exact Hin2|]. intros H; apply Hns2, in_or_app; left; exact H.
  - unfold Dlmm.cache_inv.
    cbn [Dlmm.creates Dlmm.settled Dlmm.dlmmPools Dlmm.dlmmPoolPromises].
    refine (conj Hi (conj Hd (conj _ (conj Hn (conj _ _))))).
    + intros k Hk. apply in_app_or in Hk as [Hk|[<-|[]]]; auto.
    + intros pid2 a' Hin2.
      destruct (Hv pid2 a' Hin2) as [H|[H1 [H2 H3]]]; [left; exact H|].
      right. split; [exact H1|]. split; [exact H2|]. apply in_or_app; left; exact H3.
    + intros pid2 a' Hin2 Hns2. apply Hu; [exact Hin2|].
      intros H; apply Hns2, in_or_app; left; exact H.
Qed.

Lemma step_inv (c : Dlmm.Cache Pool) ev :
  Dlmm.cache_inv c -> Dlmm.cache_inv (Dlmm.step is_public_key c ev).
Proof.
  destruct ev; cbn [Dlmm.step]; [apply get_inv | apply settle_inv].
Qed.

Lemma fold_step_inv (evs : list (Dlmm.cache_event Pool)) :
  forall c, Dlmm.cache_inv c -> Dlmm.cache_inv (fold_left (Dlmm.step is_public_key) evs c).
Proof.
  induction evs as [|ev r IH]; intros c H; cbn [fold_left]; [exact H|].
  apply IH, step_inv, H.
Qed.

Lemma run_cache_inv (evs : list (Dlmm.cache_event Pool)) :
  Dlmm.cache_inv (Dlmm.run_cache is_public_key evs).
Proof. apply fold_step_inv, empty_cache_inv. Qed.

Lemma step_keeps_pool (c : Dlmm.Cache Pool) ev a p :
  Dlmm.cache_inv c -> Dlmm.dlmmPools c a = Some p ->
  Dlmm.dlmmPools (Dlmm.step is_public_key c ev) a = Some p.
Proof.
  intros Hinv Hp. pose proof Hinv as (Hi & Hd & Hs & Hn & Hv & Hu).
  destruct ev as [b|pid o]; cbn [Dlmm.step].
  - unfold Dlmm.getDlmmPool.
    destruct (Dlmm.dlmmPools c b); [exact Hp|].
    destruct (Dlmm.dlmmPoolPromises c b); [exact Hp|].
    destruct (is_public_key b); exact Hp.
  - unfold Dlmm.settle.
    destruct (existsb (Nat.eqb pid) (Dlmm.settled c)) eqn:Ex; [exact Hp|].
    destruct (nth_error (Dlmm.creates c) pid) as [[q addr]|] eqn:Ent; [|exact Hp].
    destruct o as [pool|]; [|exact Hp].
    cbn [Dlmm.dlmmPools]. unfold Dlmm.map_set.
    destruct (String.eqb_spec a addr) as [->|Hne]; [|exact Hp].
    assert (q = pid) as -> by (apply Hi in Ent; exact Ent).
    assert (Hin : In (pid, addr) (Dlmm.creates c)) by (eapply nth_error_In; eauto).
    assert (Hns : ~ In pid (Dlmm.settled c)).
    { intros H. assert (existsb (Nat.eqb pid) (Dlmm.settled c) = true) as Ht.
      { apply existsb_exists. exists pid; split; [exact H|apply Nat.eqb_refl]. }
      congruence. }
    destruct (Hu pid addr Hin Hns) as [_ Hnone]. congruence.
Qed.

(** X15.  [getDlmmPool] calls [DLMM.create] at most once per pool
    address, whatever the sequence of calls and of settlements of the
    creation promises. *)
Theorem dlmm_create_once_per_address (evs : list (Dlmm.cache_event Pool)) :
  NoDup (List.map snd (Dlmm.creates (Dlmm.run_cache is_public_key evs))).
Proof. destruct (run_cache_inv evs) as (_ & Hd & _). exact Hd. Qed.

(** X16.  Once [DLMM.create] has been called for an address, every later
    [getDlmmPool] for it leaves the cache unchanged and resolves from the
    cache or returns that first creation promise; the promise is returned
    even when it has rejected, so a failed creation is never retried. *)
Theorem dlmm_created_address_never_recreated (evs : list (Dlmm.cache_event Pool)) pid a :
  In (pid, a) (Dlmm.creates (Dlmm.run_cache is_public_key evs)) ->
  Dlmm.getDlmmPool is_public_key (Dlmm.run_cache is_public_key evs) a
    = (Dlmm.FromPromise pid, Dlmm.run_cache is_public_key evs) \/
  exists p, Dlmm.getDlmmPool is_public_key (Dlmm.run_cache is_public_key evs) a
    = (Dlmm.FromCache p, Dlmm.run_cache is_public_key evs).
Proof.
  intros Hin. destruct (run_cache_inv evs) as (_ & _ & _ & _ & Hv & _).
  unfold Dlmm.getDlmmPool.
  destruct (Hv pid a Hin) as [[Hq Hp]|[Hq [[p Hp] _]]]; rewrite Hp.
  - rewrite Hq. left; reflexivity.
  - right. exists p; reflexivity.
Qed.

(** X17.  A pool instance stored in [dlmmPools] stays there unchanged,
    whatever calls and settlements follow. *)
Theorem dlmm_cached_pool_kept (evs evs' : list (Dlmm.cache_event Pool)) a p :
  Dlmm.dlmmPools (Dlmm.run_cache is_public_key evs) a = Some p ->
  Dlmm.dlmmPools (Dlmm.run_cache is_public_key (evs ++ evs')) a = Some p.
Proof.
  unfold Dlmm.run_cache. rewrite fold_left_app.
  generalize (run_cache_inv evs). unfold Dlmm.run_cache.
  generalize (fold_left (Dlmm.step is_public_key) evs Dlmm.empty_cache).
  induction evs' as [|ev r IH]; intros c Hinv Hp; cbn [fold_left]; [exact Hp|].
  apply IH; [apply step_inv, Hinv | apply step_keeps_pool; assumption].
Qed.

End PoolCache.

(** * Fee tiers and the largest sample *)

Lemma insert_asc_sorted (a : Z) (l : list Z) :
  Sorted Z.le l -> Sorted Z.le (insert_asc a l).
Proof.
  induction l as [|y r IH]; intros Hs; cbn [insert_asc].
  - repeat constructor.
  - destruct (Z.leb_spec a y).
    + constructor; [exact Hs | constructor; exact H].
    + apply Sorted_inv in Hs as [Hr Hh]. constructor; [apply IH, Hr|].
      destruct r as [|z r']; cbn [insert_asc].
      * constructor. lia.
      * inversion Hh; subst. destruct (a <=? z); constructor; lia.
Qed.

Lemma sort_asc_sorted (l : list Z) : Sorted Z.le (sort_asc l).
Proof.
  induction l as [|a r IH]; cbn [sort_asc]; [constructor | apply insert_asc_sorted, IH].
Qed.

Lemma sorted_hd_le_last (y : Z) (r : list Z) :
  Sorted Z.le (y :: r) -> y <= last (y :: r) 0.
Proof.
  revert y; induction r as [|z r IH]; intros y Hs; [cbn; lia|].
  change (last (y :: z :: r) 0) with (last (z :: r) 0).
  apply Sorted_inv in Hs as [Hr Hh]. inversion Hh; subst.
  specialize (IH z Hr). lia.
Qed.

Lemma last_cons_ne (y d : Z) (l : list Z) : l <> [] -> last (y :: l) d = last l d.
Proof. destruct l; [congruence | reflexivity]. Qed.

Lemma last_insert_asc (a : Z) (s : list Z) :
  Sorted Z.le s -> s <> [] -> last (insert_asc a s) 0 = Z.max a (last s 0).
Proof.
  induction s as [|y r IH]; intros Hs Hne; [congruence|].
  cbn [insert_asc]. destruct (Z.leb_spec a y).
  - pose proof (sorted_hd_le_last y r Hs).
    change (last (a :: y :: r) 0) with (last (y :: r) 0). lia.
  - apply Sorted_inv in Hs as [Hr _]. destruct r as [|z r'].
    + cbn. lia.
    + rewrite last_cons_ne by (cbn [insert_asc]; destruct (a <=? z); discriminate).
      rewrite IH by (assumption || discriminate).
      change (last (y :: z :: r') 0) with (last (z :: r') 0). reflexivity.
Qed.

Lemma fold_max_nonneg (l : list Z) : 0 <= fold_right Z.max 0 l.
Proof. induction l; cbn [fold_right]; lia. Qed.

Lemma last_sort_asc (l : list Z) :
  Forall (fun x => 0 < x) l -> last (sort_asc l) 0 = fold_right Z.max 0 l.
Proof.
  induction l as [|a r IH]; intros Hp; [reflexivity|].
  inversion Hp as [|? ? Ha Hr]; subst. cbn [sort_asc fold_right].
  destruct (sort_asc r) as [|y s] eqn:E.
  - destruct r as [|b r']; [cbn; lia|].
    exfalso. assert (In b (sort_asc (b :: r'))) as Hin by (apply sort_asc_In; left; reflexivity).
    rewrite E in Hin; contradiction.
  - rewrite <- E. rewrite last_insert_asc by first [apply sort_asc_sorted | rewrite E; discriminate].
    rewrite <- E in IH. rewrite IH by exact Hr. reflexivity.
Qed.

Lemma nonZero_pos (fees : list Z) : Forall (fun x => 0 < x) (nonZero fees).
Proof.
  apply Forall_forall. intros x Hx. unfold nonZero in Hx.
  apply filter_In in Hx as [_ H]. apply Z.ltb_lt in H; exact H.
Qed.

Lemma max_sample_nonZero (fees : list Z) :
  fold_right Z.max 0 (nonZero fees) = max_sample fees.
Proof.
  unfold max_sample, nonZero. induction fees as [|a r IH]; [reflexivity|].
  cbn [filter fold_right]. destruct (Z.ltb_spec 0 a); cbn [fold_right]; rewrite IH; [reflexivity|].
  pose proof (fold_max_nonneg r). lia.
Qed.

Lemma sort_nonZero_nil (fees : list Z) :
  sort_asc (nonZero fees) = [] -> max_sample fees = 0.
Proof.
  intros E. rewrite <- max_sample_nonZero.
  destruct (nonZero fees) as [|b r] eqn:En; [reflexivity|].
  assert (In b (sort_asc (b :: r))) as Hin by (apply sort_asc_In; left; reflexivity).
  rewrite E in Hin; contradiction.
Qed.

Lemma max_sample_perm (l1 l2 : list Z) :
  Permutation l1 l2 -> max_sample l1 = max_sample l2.
Proof.
  unfold max_sample. induction 1; cbn [fold_right]; try lia.
Qed.

Lemma tiers_closed_form (fees : list Z) :
  Rev2.tiers fees
    = mkFees (quarter (max_sample fees)) (half (max_sample fees))
        (three_quarters (max_sample fees)) (max_sample fees) /\
  Rev1.tiers fees
    = mkFees (Z.max (quarter (max_sample fees)) 10000) (Z.max (half (max_sample fees)) 20000)
        (Z.max (three_quarters (max_sample fees)) 30000) (Z.max (max_sample fees) 40000).
Proof.
  unfold Rev2.tiers, Rev1.tiers; cbn [Rev1.DEFAULT_FEES].
  destruct (0 <? Z.of_nat (List.length (sort_asc (nonZero fees)))) eqn:E.
  - unfold last_elem. rewrite last_sort_asc by apply nonZero_pos.
    rewrite max_sample_nonZero. split; reflexivity.
  - destruct (sort_asc (nonZero fees)) as [|y r] eqn:Es; [|cbn in E; lia].
    rewrite (sort_nonZero_nil fees Es). split; reflexivity.
Qed.

(** X1.  In both revisions the tiers are computed from the largest fee
    sample [m] alone ([0] when no sample is positive): [part_002] returns
    floor(m/4), floor(m/2), [three_quarters m] (floor of [m * 0.75] in
    double precision, which rounds 3m/4 to 53 significant bits) and [m];
    [part_001] returns the same values raised to at least 10000, 20000,
    30000 and 40000. *)
Theorem tiers_from_largest_sample (fees : list Z) :
  Rev2.tiers fees
    = mkFees (quarter (max_sample fees)) (half (max_sample fees))
        (three_quarters (max_sample fees)) (max_sample fees) /\
  Rev1.tiers fees
    = mkFees (Z.max (quarter (max_sample fees)) 10000) (Z.max (half (max_sample fees)) 20000)
        (Z.max (three_quarters (max_sample fees)) 30000) (Z.max (max_sample fees) 40000).
Proof. exact (tiers_closed_form fees). Qed.

(** X2.  The tiers do not depend on the order in which the samples
    arrive. *)
Theorem tiers_ignore_sample_order (l1 l2 : list Z) :
  Permutation l1 l2 -> Rev1.tiers l1 = Rev1.tiers l2 /\ Rev2.tiers l1 = Rev2.tiers l2.
Proof.
  intros Hp. destruct (tiers_closed_form l1) as [A1 B1].
  destruct (tiers_closed_form l2) as [A2 B2].
  rewrite A1, B1, A2, B2, (max_sample_perm l1 l2 Hp). split; reflexivity.
Qed.

(** * What the submission loop broadcasts *)

Lemma only_sends_snoc (tx : Transaction) (tr ext : list event) :
  only_sends tx tr -> only_sends tx ext -> only_sends tx (tr ++ ext).
Proof. intros H1 H2. apply Forall_app; split; assumption. Qed.

Ltac close_only_sends :=
  cbn [trace snd]; rewrite <- ?app_assoc;
  apply only_sends_snoc; [assumption | repeat constructor].

Lemma rev1_loop_only_sends (e : Env) fuel payer tx lv :
  forall bh sg st, only_sends tx (trace st) ->
    only_sends tx (trace (snd (Rev1.retry_loop fuel payer tx lv bh sg e st))).
Proof.
  induction fuel as [|fuel IH]; intros bh sg st H; [exact H|].
  cbn [Rev1.retry_loop]. unfold_rpc.
  destruct (bh <? lv); split_answers; try apply IH; close_only_sends.
Qed.

Lemma rev2_loop_only_sends (e : Env) fuel c tx lv :
  forall bh sg st, only_sends tx (trace st) ->
    only_sends tx (trace (snd (Rev2.retry_loop fuel c tx lv bh sg e st))).
Proof.
  induction fuel as [|fuel IH]; intros bh sg st H; [exact H|].
  cbn [Rev2.retry_loop]. unfold_rpc.
  destruct (lt_opt bh lv); split_answers; try apply IH; close_only_sends.
Qed.

(** X3.  Every transaction broadcast by [sendAndConfirmTransaction] is the
    caller's transaction with exactly one compute-unit-price instruction
    appended, added once before the loop and not on each retry: in
    [part_001] its price is the [high] tier of the estimate and its
    [lastValidBlockHeight] is the first block height read plus 100; in
    [part_002] its price is the [medium] tier and [lastValidBlockHeight] is
    the caller's. *)
Theorem broadcasts_priced_transaction (e : Env) fuel tx payer account c endpoint :
  (exists f,
     Rev1.fetchEstimatePriorityFees (env_fee e) (Some account) endpoint = Ok f /\
     only_sends (mkTx (instructions tx ++ [SetComputeUnitPrice (high f)])
                      (Some (env_height e 0 + 100)))
       (trace (snd (run (Rev1.sendAndConfirmTransaction fuel tx payer account endpoint) e)))) /\
  (exists f,
     Rev2.fetchEstimatePriorityFees (env_fee e) (Some account) endpoint = Ok f /\
     only_sends (mkTx (instructions tx ++ [SetComputeUnitPrice (medium f)])
                      (lastValidBlockHeight tx))
       (trace (snd (run (Rev2.sendAndConfirmTransaction fuel tx account c endpoint) e)))).
Proof.
  split.
  - destruct (rev1_fetch_cases (env_fee e) (Some account) endpoint) as [H|[fees H]];
      eexists; split; try exact H;
      unfold run, Rev1.sendAndConfirmTransaction, Rev1.fetchFees;
      unfold bind at 1; rewrite H; unfold bind, getBlockHeight;
      apply rev1_loop_only_sends; repeat constructor.
  - destruct (rev2_fetch_cases (env_fee e) (Some account) endpoint) as [H|[H|[fees H]]];
      eexists; split; try exact H;
      unfold run, Rev2.sendAndConfirmTransaction, Rev2.fetchFees;
      unfold bind at 1; rewrite H; unfold bind, getBlockHeight;
      apply rev2_loop_only_sends; repeat constructor.
Qed.

(** * Rejected broadcasts *)

Lemma Forall_at {A} (P : A -> Prop) (l pre post : list A) x :
  Forall P l -> l = pre ++ x :: post -> P x.
Proof.
  intros HF ->. rewrite Forall_forall in HF. apply HF, in_or_app; right; left; reflexivity.
Qed.

Ltac settle_rejected HF :=
  first
    [ exfalso;
      match goal with
      | Hl : trace _ = _ ++ _ :: _ |- _ =>
          pose proof (Forall_at _ _ _ _ _ HF Hl) as Hx; discriminate Hx
      end
    | exfalso; eapply app_cons_not_nil; eassumption
    | split; reflexivity ].

Lemma rev1_loop_rejected (e : Env) fuel payer tx lv :
  forall bh sg st,
    Forall (fun ev => send_rejected ev = false) (trace st) ->
    forall pre t post,
      trace (snd (Rev1.retry_loop fuel payer tx lv bh sg e st)) = pre ++ EvSend t SendErr :: post ->
      post = [] /\ fst (Rev1.retry_loop fuel payer tx lv bh sg e st) = Throw SendFailed.
Proof.
  induction fuel as [|fuel IH]; intros bh sg st HF pre t post Hs.
  - exfalso. cbn [Rev1.retry_loop out_of_fuel snd] in Hs.
    pose proof (Forall_at _ _ _ _ _ HF Hs) as Hx; discriminate Hx.
  - revert Hs. cbn [Rev1.retry_loop]. unfold_rpc.
    destruct (bh <? lv); split_answers;
      first
        [ intros Hs; eapply IH; [|exact Hs];
          cbn [trace]; rewrite <- ?app_assoc; apply Forall_app; split;
          [exact HF | repeat constructor]
        | intros Hs; split_on_trace Hs; settle_rejected HF ].
Qed.

Lemma rev2_loop_rejected (e : Env) fuel c tx lv :
  forall bh sg st,
    Forall (fun ev => send_rejected ev = false) (trace st) ->
    forall pre t post,
      trace (snd (Rev2.retry_loop fuel c tx lv bh sg e st)) = pre ++ EvSend t SendErr :: post ->
      post = [] /\ fst (Rev2.retry_loop fuel c tx lv bh sg e st) = Throw SendFailed.
Proof.
  induction fuel as [|fuel IH]; intros bh sg st HF pre t post Hs.
  - exfalso. cbn [Rev2.retry_loop out_of_fuel snd] in Hs.
    pose proof (Forall_at _ _ _ _ _ HF Hs) as Hx; discriminate Hx.
  - revert Hs. cbn [Rev2.retry_loop]. unfold_rpc.
    destruct (lt_opt bh lv); split_answers;
      first
        [ intros Hs; eapply IH; [|exact Hs];
          cbn [trace]; rewrite <- ?app_assoc; apply Forall_app; split;
          [exact HF | repeat constructor]
        | intros Hs; split_on_trace Hs; settle_rejected HF ].
Qed.

(** X4.  In both revisions a rejected [sendRawTransaction] is never
    retried: it is the last call of the submission, which rejects with the
    broadcast error. *)
Theorem rejected_broadcast_ends_submission (e : Env) fuel tx payer account c endpoint :
  (forall pre t post,
     trace (snd (run (Rev1.sendAndConfirmTransaction fuel tx payer account endpoint) e))
       = pre ++ EvSend t SendErr :: post ->
     post = [] /\
     fst (run (Rev1.sendAndConfirmTransaction fuel tx payer account endpoint) e)
       = Throw SendFailed) /\
  (forall pre t post,
     trace (snd (run (Rev2.sendAndConfirmTransaction fuel tx account c endpoint) e))
       = pre ++ EvSend t SendErr :: post ->
     post = [] /\
     fst (run (Rev2.sendAndConfirmTransaction fuel tx account c endpoint) e)
       = Throw SendFailed).
Proof.
  split.
  - destruct (rev1_run_loop e fuel tx payer account endpoint) as [tx2 ->].
    apply rev1_loop_rejected. repeat constructor.
  - destruct (rev2_run_loop e fuel tx account c endpoint) as [tx1 ->].
    apply rev2_loop_rejected. repeat constructor.
Qed.

(** * The loop of [part_002] *)

(** X5.  In [part_002], a transaction without [lastValidBlockHeight] is
    never broadcast: the submission reads the block height, looks up the
    status of an undefined signature once, and resolves to that undefined
    signature if the lookup reports the requested level, rejects with the
    expiry error if not, and rejects with the lookup's error if it fails. *)
Theorem rev2_without_last_valid_height_never_broadcasts
  (e : Env) fuel tx account c endpoint :
  lastValidBlockHeight tx = None -> fuel <> 0%nat ->
  trace (snd (run (Rev2.sendAndConfirmTransaction fuel tx account c endpoint) e))
    = [EvHeight (env_height e 0); EvDirect None (env_direct e 0 None)] /\
  fst (run (Rev2.sendAndConfirmTransaction fuel tx account c endpoint) e)
    = match Rev2.confirm_status c (env_direct e 0 None) with
      | Ok true => Ok None
      | Ok false => Throw Expired
      | Throw err => Throw err
      | OutOfFuel => OutOfFuel
      end.
Proof.
  intros Hlv Hf. destruct (rev2_run_loop e fuel tx account c endpoint) as [tx1 ->].
  destruct fuel as [|fuel]; [congruence|].
  rewrite Hlv. cbn [Rev2.retry_loop lt_opt]. unfold_rpc. simpl_rpc.
  destruct (Rev2.confirm_status c (env_direct e 0 None)) as [[|]| |]; split; reflexivity.
Qed.

Lemma rev2_loop_spins (e : Env) c tx lv bh
  (Hbh : bh < lv)
  (Hsend : forall k t, exists sg, env_send e k t = SendOk sg)
  (Hconf : forall k sg, Rev2.confirm_status c (env_direct e k sg) = Ok false) :
  forall fuel sg st,
    fst (Rev2.retry_loop fuel c tx (Some lv) bh sg e st) = OutOfFuel /\
    n_send (snd (Rev2.retry_loop fuel c tx (Some lv) bh sg e st)) = (n_send st + fuel)%nat /\
    n_height (snd (Rev2.retry_loop fuel c tx (Some lv) bh sg e st)) = n_height st.
Proof.
  induction fuel as [|fuel IH]; intros sg st.
  - cbn. split; [reflexivity|]. split; [lia|reflexivity].
  - cbn [Rev2.retry_loop lt_opt].
    replace (bh <? lv) with true by (symmetry; apply Z.ltb_lt; exact Hbh).
    unfold_rpc. destruct (Hsend (n_send st) tx) as [s Hs].
    simpl_rpc. rewrite Hs. simpl_rpc. rewrite Hconf.
    destruct (IH (Some s) (mkState (n_height st) (S (n_send st)) (S (n_direct st)) (n_addr st)
               ((trace st ++ [EvSend tx (SendOk s)]) ++
                [EvDirect (Some s) (env_direct e (n_direct st) (Some s))])))
      as (H1 & H2 & H3).
    cbn [n_send n_height] in H2, H3.
    split; [exact H1|]. split; [rewrite H2; lia | exact H3].
Qed.

(** X6.  In [part_002] the block height is read once and never again: when
    it is below the transaction's [lastValidBlockHeight], every broadcast
    succeeds and no status lookup reports the requested level, the loop never
    ends; after any number [fuel] of iterations it is still running, has
    broadcast [fuel] times, and has read the block height only once. *)
Theorem rev2_resends_without_end (e : Env) fuel tx account c endpoint lv :
  lastValidBlockHeight tx = Some lv ->
  env_height e 0 < lv ->
  (forall k t, exists sg, env_send e k t = SendOk sg) ->
  (forall k sg, Rev2.confirm_status c (env_direct e k sg) = Ok false) ->
  fst (run (Rev2.sendAndConfirmTransaction fuel tx account c endpoint) e) = OutOfFuel /\
  n_send (snd (run (Rev2.sendAndConfirmTransaction fuel tx account c endpoint) e)) = fuel /\
  n_height (snd (run (Rev2.sendAndConfirmTransaction fuel tx account c endpoint) e)) = 1%nat.
Proof.
  intros Hlv Hlt Hsend Hconf.
  destruct (rev2_run_loop e fuel tx account c endpoint) as [tx1 ->]. rewrite Hlv.
  destruct (rev2_loop_spins e c tx1 lv (env_height e 0) Hlt Hsend Hconf fuel None
              (mkState 1 0 0 0 [EvHeight (env_height e 0)])) as (H1 & H2 & H3).
  split; [exact H1|]. split; [exact H2 | exact H3].
Qed.

(** * Reverse lookup *)

(** X7.  In [part_001], [confirmTransactionByAddress] decides on the first
    entry of the result that carries the signature: entries of other
    signatures before it, failed or not, never change the outcome; an
    undefined signature matches no entry and gives false. *)
Theorem by_address_decides_on_first_matching_entry (sg : string) (l1 l2 : list SigEntry) :
  Forall (fun en => se_signature en <> sg) l1 ->
  Rev1.confirm_by_address (Some sg) (AResult (Some (l1 ++ l2)))
    = Rev1.confirm_by_address (Some sg) (AResult (Some l2)) /\
  Rev1.confirm_by_address None (AResult (Some (l1 ++ l2))) = Ok false.
Proof.
  intros HF. split; [|reflexivity].
  unfold Rev1.confirm_by_address, Rev1.find_entry.
  induction HF as [|en r Hne HF IH]; [reflexivity|].
  cbn [app find]. destruct (String.eqb_spec (se_signature en) sg); [contradiction | exact IH].
Qed.

(** * Polling for transaction details *)

Lemma poll_from_some (attempts : nat -> option Meteora.ParsedTransaction) :
  forall n k tx,
    Meteora.poll_from attempts k n = Some tx <->
    exists j, (k <= j < k + n)%nat /\ attempts j = Some tx /\
              forall i, (k <= i < j)%nat -> attempts i = None.
Proof.
  induction n as [|n IH]; intros k tx; cbn [Meteora.poll_from].
  - split; [discriminate|]. intros (j & Hj & _); lia.
  - destruct (attempts k) as [t|] eqn:Ek.
    + split.
      * intros H; inversion H; subst. exists k. split; [lia|]. split; [exact Ek|].
        intros i Hi; lia.
      * intros (j & Hj & Hs & Hb).
        destruct (Nat.eq_dec j k) as [->|Hne]; [congruence|].
        rewrite Hb in Ek by lia. discriminate.
    + rewrite IH. split.
      * intros (j & Hj & Hs & Hb). exists j. split; [lia|]. split; [exact Hs|].
        intros i Hi. destruct (Nat.eq_dec i k) as [->|Hne]; [exact Ek|]. apply Hb; lia.
      * intros (j & Hj & Hs & Hb). exists j.
        destruct (Nat.eq_dec j k) as [->|Hne]; [congruence|].
        split; [lia|]. split; [exact Hs|]. intros i Hi; apply Hb; lia.
Qed.

(** X8.  The balance-delta helpers of [MeteoraController] use the first
    of the first 20 [getParsedTransaction] answers that is not null: they
    work on [tx] exactly when some attempt [k < 20] answers [tx] and every
    earlier attempt failed; answers after it, and from attempt 20 on, are
    never used. *)
Theorem details_from_first_answer_within_twenty
  (attempts : nat -> option Meteora.ParsedTransaction) tx :
  Meteora.poll attempts = Some tx <->
  exists k, (k < 20)%nat /\ attempts k = Some tx /\
            forall i, (i < k)%nat -> attempts i = None.
Proof.
  unfold Meteora.poll. rewrite poll_from_some. split.
  - intros (j & Hj & Hs & Hb). exists j. split; [lia|]. split; [exact Hs|].
    intros i Hi; apply Hb; lia.
  - intros (j & Hj & Hs & Hb). exists j. split; [lia|]. split; [exact Hs|].
    intros i Hi; apply Hb; lia.
Qed.

(** * Token list lookups *)

Section TokenLookups.

Variable toLowerCase : string -> string.
Variable is_public_key : string -> bool.
Variable check : Tokens.Token -> bool.
Variable fetchMint : string -> option Tokens.Token.

Lemma find_symbol_some (q : string) (l : list Tokens.Token) t :
  Tokens.find_symbol toLowerCase q l = Tokens.TOk (Some t) <->
  exists pre post s, l = pre ++ t :: post /\ Tokens.symbol t = Some s /\
                     toLowerCase s = q /\ symbols_differ toLowerCase q pre.
Proof.
  induction l as [|u r IH]; cbn [Tokens.find_symbol].
  - split; [discriminate|]. intros (pre & post & s & E & _).
    destruct pre; discriminate.
  - destruct (Tokens.symbol u) as [s|] eqn:Es.
    + destruct (String.eqb_spec (toLowerCase s) q) as [Eq|Ne].
      * split.
        -- intros H; inversion H; subst. exists [], r, s. repeat split; auto. constructor.
        -- intros (pre & post & s' & E & Hs & Hq & Hd).
           destruct pre as [|v pre]; cbn [app] in E; inversion E; subst; [reflexivity|].
           inversion Hd as [|? ? (s0 & Hs0 & Hne) _]; subst. congruence.
      * rewrite IH. split.
        -- intros (pre & post & s' & E & Hs & Hq & Hd). exists (u :: pre), post, s'.
           subst. repeat split; auto. constructor; [exists s; auto | exact Hd].
        -- intros (pre & post & s' & E & Hs & Hq & Hd).
           destruct pre as [|v pre]; cbn [app] in E; inversion E; subst; [congruence|].
           inversion Hd; subst. exists pre, post, s'. repeat split; auto.
    + split; [discriminate|]. intros (pre & post & s' & E & Hs & Hq & Hd).
      destruct pre as [|v pre]; cbn [app] in E; inversion E; subst; [congruence|].
      inversion Hd as [|? ? (s0 & Hs0 & _) _]; subst. congruence.
Qed.

Lemma find_symbol_none (q : string) (l : list Tokens.Token) :
  Tokens.find_symbol toLowerCase q l = Tokens.TOk None <-> symbols_differ toLowerCase q l.
Proof.
  unfold symbols_differ.
  induction l as [|u r IH]; cbn [Tokens.find_symbol].
  - split; [constructor | reflexivity].
  - destruct (Tokens.symbol u) as [s|] eqn:Es.
    + destruct (String.eqb_spec (toLowerCase s) q) as [Eq|Ne].
      * split; [discriminate|]. intros Hd. inversion Hd as [|? ? (s0 & Hs0 & Hne) _]; subst.
        congruence.
      * rewrite IH. split.
        -- intros H. constructor; [exists s; auto | exact H].
        -- intros H. inversion H; assumption.
    + split; [discriminate|]. intros Hd. inversion Hd as [|? ? (s0 & Hs0 & _) _]; congruence.
Qed.

(** X9.  [getTokenBySymbol] returns [t] exactly when [t] is the first entry
    of the token list whose symbol, lowercased, equals the lowercased query,
    every earlier entry has a symbol, and [t] passes the schema check: the
    lookup ignores case and the first match wins. *)
Theorem token_by_symbol_first_match (tl : Tokens.TokenList) (sym : string) t :
  Tokens.getTokenBySymbol toLowerCase check tl sym = Tokens.TOk t <->
  exists pre post s,
    Tokens.getTokenList tl = Tokens.TOk (pre ++ t :: post) /\
    Tokens.symbol t = Some s /\ toLowerCase s = toLowerCase sym /\
    symbols_differ toLowerCase (toLowerCase sym) pre /\ check t = true.
Proof.
  unfold Tokens.getTokenBySymbol.
  destruct (Tokens.getTokenList tl) as [l|err].
  - assert (Hdet : forall u, Tokens.find_symbol toLowerCase (toLowerCase sym) l
                             = Tokens.TOk (Some u) ->
              (exists pre post s, Tokens.TOk l = Tokens.TOk (pre ++ t :: post) /\
                 Tokens.symbol t = Some s /\ toLowerCase s = toLowerCase sym /\
                 symbols_differ toLowerCase (toLowerCase sym) pre) -> u = t).
    { intros u Hu (pre & post & s & E & Hs & Hq & Hd). injection E as E.
      assert (Tokens.find_symbol toLowerCase (toLowerCase sym) l = Tokens.TOk (Some t))
        as Ht by (apply find_symbol_some; exists pre, post, s; auto).
      rewrite Hu in Ht. injection Ht; auto. }
    assert (Hno : Tokens.find_symbol toLowerCase (toLowerCase sym) l <> Tokens.TOk (Some t) ->
              ~ (exists pre post s, Tokens.TOk l = Tokens.TOk (pre ++ t :: post) /\
                 Tokens.symbol t = Some s /\ toLowerCase s = toLowerCase sym /\
                 symbols_differ toLowerCase (toLowerCase sym) pre)).
    { intros Hne (pre & post & s & E & Hs & Hq & Hd). injection E as E. apply Hne.
      apply find_symbol_some; exists pre, post, s; auto. }
    destruct (Tokens.find_symbol toLowerCase (toLowerCase sym) l) as [[u|]|err] eqn:Ef.
    + destruct (check u) eqn:Ec; split.
      * intros H; injection H as <-.
        apply find_symbol_some in Ef as (pre & post & s & E & Hs & Hq & Hd).
        exists pre, post, s. subst l. repeat split; auto.
      * intros (pre & post & s & E & Hs & Hq & Hd & Hc).
        rewrite (Hdet u eq_refl); [reflexivity|]. exists pre, post, s; auto.
      * discriminate.
      * intros (pre & post & s & E & Hs & Hq & Hd & Hc).
        assert (u = t) as -> by (apply Hdet; [reflexivity|]; exists pre, post, s; auto).
        congruence.
    + split; [discriminate|]. intros (pre & post & s & E & Hs & Hq & Hd & Hc).
      exfalso. apply Hno; [discriminate|]. exists pre, post, s; auto.
    + split; [discriminate|]. intros (pre & post & s & E & Hs & Hq & Hd & Hc).
      exfalso. apply Hno; [discriminate|]. exists pre, post, s; auto.
  - split; [discriminate|]. intros (pre & post & s & E & _). discriminate.
Qed.

(** X10.  [getTokenBySymbol] fails with 'Token not found in the token list'
    exactly when the list loaded, every entry has a symbol, and no symbol
    equals the query once both are lowercased. *)
Theorem token_by_symbol_not_found (tl : Tokens.TokenList) (sym : string) :
  Tokens.getTokenBySymbol toLowerCase check tl sym = Tokens.TErr Tokens.NotFound <->
  exists l, Tokens.getTokenList tl = Tokens.TOk l /\ symbols_differ toLowerCase (toLowerCase sym) l.
Proof.
  unfold Tokens.getTokenBySymbol.
  destruct (Tokens.getTokenList tl) as [l|err] eqn:Eg.
  - destruct (Tokens.find_symbol toLowerCase (toLowerCase sym) l) as [[u|]|err] eqn:Ef.
    + split.
      * destruct (check u); discriminate.
      * intros (l' & E & Hd). inversion E; subst.
        apply find_symbol_none in Hd. congruence.
    + split; [intros _; exists l; split; [reflexivity|]; apply find_symbol_none; exact Ef|].
      reflexivity.
    + split.
      * intros H; inversion H; subst.
        (* the only error of [find_symbol] is [SymbolUndefined] *)
        exfalso. clear -Ef. induction l as [|v r IH]; cbn [Tokens.find_symbol] in Ef;
          [discriminate|].
        destruct (Tokens.symbol v); [|discriminate].
        destruct (String.eqb _ _); [discriminate | exact (IH Ef)].
      * intros (l' & E & Hd). inversion E; subst.
        apply find_symbol_none in Hd. congruence.
  - split.
    + intros H; inversion H; subst.
      exfalso. unfold Tokens.getTokenList in Eg. destruct (Tokens.content tl); congruence.
    + intros (l & E & _); discriminate.
Qed.

End TokenLookups.

Section AddressLookups.

Variable is_public_key : string -> bool.
Variable check : Tokens.Token -> bool.
Variable fetchMint : string -> option Tokens.Token.

Lemma find_address_some (a : string) (l : list Tokens.Token) t :
  Tokens.find_address a l = Some t ->
  Tokens.address t = Some a /\
  exists pre post, l = pre ++ t :: post /\
                   Forall (fun u => Tokens.address u <> Some a) pre.
Proof.
  unfold Tokens.find_address. induction l as [|u r IH]; cbn [find]; [discriminate|].
  destruct (Tokens.address u) as [x|] eqn:Ea.
  - destruct (String.eqb_spec x a) as [->|Ne].
    + intros H; injection H as <-. split; [exact Ea|]. exists [], r. split; [reflexivity | constructor].
    + intros H. destruct (IH H) as (Ht & pre & post & E & Hd). split; [exact Ht|].
      exists (u :: pre), post. subst r. split; [reflexivity|].
      constructor; [congruence | exact Hd].
  - intros H. destruct (IH H) as (Ht & pre & post & E & Hd). split; [exact Ht|].
    exists (u :: pre), post. subst r. split; [reflexivity|].
    constructor; [congruence | exact Hd].
Qed.

(** X11.  A lookup by address in the local token list that succeeds
    returns the first entry of the list whose address is the requested one
    (compared exactly), after the address passed the public key test and the
    entry passed the schema check. *)
Theorem token_by_address_local_first_match (network : string)
  (tl : Tokens.TokenList) (a : string) t :
  Tokens.getTokenByAddress is_public_key check fetchMint network tl a false = Tokens.TOk t ->
  is_public_key a = true /\ check t = true /\ Tokens.address t = Some a /\
  exists pre post, Tokens.getTokenList tl = Tokens.TOk (pre ++ t :: post) /\
                   Forall (fun u => Tokens.address u <> Some a) pre.
Proof.
  unfold Tokens.getTokenByAddress. cbn [andb].
  destruct (is_public_key a) eqn:Hpk; cbn [negb]; [|discriminate].
  destruct (Tokens.getTokenList tl) as [l|e]; [|discriminate].
  destruct (Tokens.find_address a l) as [u|] eqn:Ef; [|discriminate].
  destruct (check u) eqn:Hc; [|discriminate].
  intros H; injection H as <-.
  destruct (find_address_some a l u Ef) as (Ha & pre & post & E & Hd).
  repeat split; auto. exists pre, post. subst l. split; [reflexivity | exact Hd].
Qed.

(** X12.  A lookup through the API never reads the token list, and off
    [mainnet-beta] it fails with 'API usage is only allowed on mainnet-beta'
    whatever the address, before the address is parsed. *)
Theorem token_by_address_api_ignores_list (network : string)
  (tl tl' : Tokens.TokenList) (a : string) :
  Tokens.getTokenByAddress is_public_key check fetchMint network tl a true =
  Tokens.getTokenByAddress is_public_key check fetchMint network tl' a true /\
  (network <> "mainnet-beta"%string ->
   Tokens.getTokenByAddress is_public_key check fetchMint network tl a true =
   Tokens.TErr Tokens.ApiOnlyMainnet).
Proof.
  unfold Tokens.getTokenByAddress. cbn [andb]. split; [reflexivity|].
  intros Hn. destruct (String.eqb_spec network "mainnet-beta"); [contradiction | reflexivity].
Qed.

End AddressLookups.

(** * Construction of a controller *)

Section Construction.

Variable Keypair : Type.
Variable config : (string -> option string) -> (string -> option string).
Variable trim : string -> string.
Variable clusterApiUrl : string -> string.
Variable readWallet : string -> option Keypair.

(** X13.  A controller that was constructed runs on [mainnet-beta] or
    [devnet], read from the process environment before [config()] loads the
    [.env] file, and its key pair is read from the non-empty wallet path
    that the environment holds after [config()]. *)
Theorem constructed_network_and_wallet (tokenListFile : option Tokens.TokenList)
  (env0 : string -> option string) (ctl : Construct.Controller Keypair) :
  Construct.construct Keypair config trim clusterApiUrl readWallet tokenListFile env0
    = Construct.COk ctl ->
  env0 "SOLANA_NETWORK"%string = Some (Construct.network ctl) /\
  (Construct.network ctl = "mainnet-beta"%string \/ Construct.network ctl = "devnet"%string) /\
  exists p, config env0 "SOLANA_WALLET_JSON"%string = Some p /\ p <> EmptyString /\
            readWallet p = Some (Construct.keypair ctl).
Proof.
  unfold Construct.construct, Construct.validateSolanaNetwork, Construct.loadWallet.
  destruct (env0 "SOLANA_NETWORK"%string) as [n|]; [|discriminate].
  destruct (String.eqb_spec n "mainnet-beta") as [Hm|Hm];
  destruct (String.eqb_spec n "devnet") as [Hd|Hd]; cbn [orb]; try discriminate;
  destruct (config env0 "SOLANA_WALLET_JSON"%string) as [p|]; try discriminate;
  destruct (String.eqb_spec p EmptyString) as [He|He]; try discriminate;
  destruct (readWallet p) as [k|] eqn:Hk; try discriminate;
  intros H; injection H as <-; cbn;
  (split; [reflexivity | split; [tauto | exists p; auto]]).
Qed.

(** X14.  When the token list file cannot be read or parsed, the
    controller is still constructed, with an empty token list: every lookup
    by symbol fails with 'Token not found in the token list', and every
    local lookup by address fails: with the error of [new PublicKey] when
    the address is not a public key, with 'Token not found in the token
    list' otherwise. *)
Theorem missing_token_list_finds_nothing (env0 : string -> option string)
  (ctl : Construct.Controller Keypair)
  (toLowerCase : string -> string) (is_public_key : string -> bool)
  (check : Tokens.Token -> bool) (fetchMint : string -> option Tokens.Token) :
  Construct.construct Keypair config trim clusterApiUrl readWallet None env0
    = Construct.COk ctl ->
  (forall sym, Tokens.getTokenBySymbol toLowerCase check (Construct.tokenList ctl) sym
               = Tokens.TErr Tokens.NotFound) /\
  (forall a, Tokens.getTokenByAddress is_public_key check fetchMint
               (Construct.network ctl) (Construct.tokenList ctl) a false
             = Tokens.TErr (if is_public_key a then Tokens.NotFound
                            else Tokens.InvalidPublicKey)).
Proof.
  unfold Construct.construct.
  destruct (Construct.validateSolanaNetwork _) as [n|]; [|discriminate].
  destruct (Construct.loadWallet _ _ _) as [k|]; [|discriminate].
  intros H; injection H as <-. cbn. split; [reflexivity|].
  intros a. destruct (is_public_key a); reflexivity.
Qed.

End Construction.

(** * Balance changes read from a parsed transaction *)

(** X18.  [extractAccountBalanceChangeAndFee] computes [NaN] exactly when
    a parsed transaction came back and the account index is outside its
    [postBalances] or its [preBalances] (a missing array counts as empty). *)
Theorem account_balance_change_nan attempts (accountIndex : nat) :
  Meteora.balanceChange (Meteora.extractAccountBalanceChangeAndFee attempts accountIndex)
    = None <->
  exists tx, Meteora.poll attempts = Some tx /\
    ((List.length (balances_of Meteora.postBalances tx) <= accountIndex)%nat \/
     (List.length (balances_of Meteora.preBalances tx) <= accountIndex)%nat).
Proof.
  unfold Meteora.extractAccountBalanceChangeAndFee.
  destruct (Meteora.poll attempts) as [tx|]; cbn [Meteora.balanceChange].
  - fold (balances_of Meteora.preBalances tx) (balances_of Meteora.postBalances tx).
    destruct (nth_error (balances_of Meteora.postBalances tx) accountIndex) eqn:E1;
    destruct (nth_error (balances_of Meteora.preBalances tx) accountIndex) eqn:E2.
    + split; [discriminate|]. intros (tx' & H & [Hl|Hl]); injection H as <-;
      [apply nth_error_None in Hl | apply nth_error_None in Hl]; congruence.
    + split; [intros _ | reflexivity]. exists tx. split; [reflexivity|].
      right. apply nth_error_None. exact E2.
    + split; [intros _ | reflexivity]. exists tx. split; [reflexivity|].
      left. apply nth_error_None. exact E1.
    + split; [intros _ | reflexivity]. exists tx. split; [reflexivity|].
      left. apply nth_error_None. exact E1.
  - split; [discriminate|]. intros (tx & H & _); discriminate.
Qed.


(** * Token balances of a wallet *)

Lemma tokenDefs_find (symbols : option (list string)) (l : list Tokens.Token) (a : string) :
  Balance.tokenDefs symbols l a =
  match find (fun t => Balance.selected symbols t && String.eqb (Balance.key t) a) (rev l) with
  | Some t => Some (Tokens.symbol t, Tokens.decimals t)
  | None => None
  end.
Proof.
  unfold Balance.tokenDefs.
  induction l as [|t l IH] using rev_ind; [reflexivity|].
  rewrite fold_left_app, rev_app_distr. cbn [fold_left rev app find].
  destruct (Balance.selected symbols t) eqn:Hs; cbn [andb]; [|exact IH].
  unfold Dlmm.map_set. rewrite String.eqb_sym.
  destruct (String.eqb (Balance.key t) a); [reflexivity | exact IH].
Qed.

Section Balances.

Variable sol_ui : Z -> string.
Variable fromBN : Z -> option Z -> string.
Variable is_public_key : string -> bool.

Lemma collect_named (ss : list string) (l : list Tokens.Token) :
  forall accs entries,
    Balance.collect fromBN (Balance.tokenDefs (Some ss) l) accs = Some entries ->
    Forall (fun b => exists n, Balance.b_name b = Some n /\ In n ss) entries.
Proof.
  induction accs as [|[[m amt]|] r IH]; intros entries H; cbn [Balance.collect] in H.
  - injection H as <-. constructor.
  - destruct (Balance.collect fromBN (Balance.tokenDefs (Some ss) l) r) as [rest|] eqn:Er;
      [|discriminate].
    cbn [option_map] in H. injection H as <-. apply Forall_app. split; [|exact (IH rest eq_refl)].
    rewrite tokenDefs_find.
    destruct (find _ (rev l)) as [t|] eqn:Ef; [|constructor].
    constructor; [|constructor]. cbn [Balance.b_name].
    apply find_some in Ef as [_ Hf]. apply andb_prop in Hf as [Hs _].
    unfold Balance.selected in Hs. destruct (Tokens.symbol t) as [n|]; [|discriminate].
    apply existsb_exists in Hs as (x & Hx & Hq). apply String.eqb_eq in Hq. subst x.
    exists n. split; [reflexivity | exact Hx].
  - discriminate.
Qed.

Lemma balance_check_named (ss : list string) (r : list Balance.BalanceEntry) :
  Forall (fun b => exists n, Balance.b_name b = Some n /\ In n ss) r ->
  Balance.balance_check r = true.
Proof.
  intros Hr. unfold Balance.balance_check. apply forallb_forall. intros b Hb.
  rewrite Forall_forall in Hr. destruct (Hr b Hb) as (n & -> & _). reflexivity.
Qed.

(** X19.  When several token list entries that pass the symbol filter
    share an address, [getBalance] describes the token of that address by
    the last of them: [tokenDefs] holds, under each key, the symbol and
    decimals of the last selected entry with that key. *)
Theorem balance_defs_last_entry_wins (symbols : option (list string))
  (l : list Tokens.Token) (a : string) :
  Balance.tokenDefs symbols l a =
  match find (fun t => Balance.selected symbols t && String.eqb (Balance.key t) a) (rev l) with
  | Some t => Some (Tokens.symbol t, Tokens.decimals t)
  | None => None
  end.
Proof. exact (tokenDefs_find symbols l a). Qed.

(** X20.  With a list of symbols, [getBalance] never fails the response
    schema check, whatever the owner, the token list and the RPC answers,
    and every entry of a response it returns is named by one of the
    requested symbols: SOL only when 'SOL' was requested, and a token only
    when its symbol was. *)
Theorem balance_with_symbols_names_requested (tl : Tokens.TokenList)
  (address : option string) (ss : list string) (solAnswer : option Z)
  (accountsAnswer : option (list (option (string * Z)))) :
  Balance.getBalance sol_ui fromBN is_public_key tl address (Some ss) solAnswer accountsAnswer
    <> Balance.BErr Balance.ResponseMismatch /\
  (forall r,
     Balance.getBalance sol_ui fromBN is_public_key tl address (Some ss) solAnswer accountsAnswer
       = Balance.BOk r ->
     Forall (fun b => exists n, Balance.b_name b = Some n /\ In n ss) r).
Proof.
  unfold Balance.getBalance.
  destruct (negb _); [split; [discriminate | discriminate]|].
  assert (Hsol : forall sol,
    (if Balance.wants_sol (Some ss) then
       match solAnswer with
       | Some b => Some [Balance.mkBal "SOL" (Some "SOL"%string) (sol_ui b)]
       | None => None
       end
     else Some []) = Some sol ->
    Forall (fun b => exists n, Balance.b_name b = Some n /\ In n ss) sol).
  { intros sol. unfold Balance.wants_sol.
    destruct (existsb (String.eqb "SOL") ss) eqn:E.
    - destruct solAnswer as [b|]; [|discriminate]. intros H; injection H as <-.
      apply existsb_exists in E as (x & Hx & Hq). apply String.eqb_eq in Hq. subst x.
      repeat constructor. exists "SOL"%string. split; [reflexivity | exact Hx].
    - intros H; injection H as <-. constructor. }
  destruct (if Balance.wants_sol (Some ss) then _ else _) as [sol|] eqn:Es;
    [|split; [discriminate | discriminate]].
  specialize (Hsol sol eq_refl).
  destruct (Tokens.getTokenList tl) as [l|e]; [|split; [discriminate | discriminate]].
  destruct accountsAnswer as [accs|]; [|split; [discriminate | discriminate]].
  destruct (Balance.collect fromBN (Balance.tokenDefs (Some ss) l) accs) as [entries|] eqn:Ec;
    [|split; [discriminate | discriminate]].
  assert (Hall : Forall (fun b => exists n, Balance.b_name b = Some n /\ In n ss)
                   (sol ++ entries)).
  { apply Forall_app. split; [exact Hsol | exact (collect_named ss l accs entries Ec)]. }
  rewrite (balance_check_named ss _ Hall). split; [discriminate|].
  intros r H. injection H as <-. exact Hall.
Qed.

(** X21.  Without a list of symbols and an address (as [executeSwap] calls
    it), [getBalance] fails with 'Balance response does not match the
    expected schema' as soon as the wallet holds a token whose last token
    list entry has no symbol, the RPC calls having answered. *)
Theorem balance_unfiltered_rejects_unnamed_token (tl : Tokens.TokenList)
  (solBalance : Z) (accounts : list (string * Z)) (l : list Tokens.Token)
  (m : string) (amount : Z) (t : Tokens.Token) :
  Tokens.getTokenList tl = Tokens.TOk l ->
  In (m, amount) accounts ->
  find (fun u => String.eqb (Balance.key u) m) (rev l) = Some t ->
  Tokens.symbol t = None ->
  Balance.getBalance sol_ui fromBN is_public_key tl None None (Some solBalance)
    (Some (map Some accounts)) = Balance.BErr Balance.ResponseMismatch.
Proof.
  intros Hl Hin Hf Hs. unfold Balance.getBalance. cbn [negb Balance.wants_sol]. rewrite Hl.
  assert (Hd : Balance.tokenDefs None l m = Some (None, Tokens.decimals t)).
  { rewrite tokenDefs_find. cbn [Balance.selected andb]. rewrite Hf, Hs. reflexivity. }
  assert (Hc : forall accs, In (m, amount) accs ->
            exists entries,
              Balance.collect fromBN (Balance.tokenDefs None l) (map Some accs) = Some entries /\
              In (Balance.mkBal m None (fromBN amount (Tokens.decimals t))) entries).
  { induction accs as [|[m' a'] r IH]; intros Hi; [contradiction|].
    cbn [map Balance.collect].
    destruct Hi as [Heq|Hi].
    - injection Heq as -> ->. rewrite Hd.
      assert (Hr : exists rest, Balance.collect fromBN (Balance.tokenDefs None l) (map Some r)
                                = Some rest).
      { clear. induction r as [|[x y] r IH]; [eexists; reflexivity|].
        cbn [map Balance.collect]. destruct IH as [rest ->]. eexists; reflexivity. }
      destruct Hr as [rest ->]. eexists. split; [reflexivity | left; reflexivity].
    - destruct (IH Hi) as (entries & -> & Hin').
      eexists. split; [reflexivity|]. apply in_or_app. right. exact Hin'. }
  destruct (Hc accounts Hin) as (entries & -> & Hin').
  match goal with |- (if Balance.balance_check ?r then _ else _) = _ =>
    replace (Balance.balance_check r) with false; [reflexivity|] end.
  symmetry. apply Bool.not_true_iff_false. unfold Balance.balance_check.
  rewrite forallb_forall. intros Hall.
  specialize (Hall (Balance.mkBal m None (fromBN amount (Tokens.decimals t)))).
  cbn [Balance.b_name] in Hall. discriminate Hall.
  apply in_or_app. right. exact Hin'.
Qed.

End Balances.

(** * The extra statements at concrete inputs *)

Local Open Scope string_scope.

Lemma tiers_ignore_sample_order_witness :
  Permutation [1000; 3000] [3000; 1000] /\
  Rev1.tiers [1000; 3000] = Rev1.tiers [3000; 1000] /\
  Rev2.tiers [1000; 3000] = Rev2.tiers [3000; 1000].
Proof.
  split; [apply perm_swap|].
  apply (tiers_ignore_sample_order [1000; 3000] [3000; 1000]). apply perm_swap.
Defined.

Lemma rejected_broadcast_ends_submission_witness :
  fst (run (Rev1.sendAndConfirmTransaction 5 tx0 "payer" "acct" "url") env_send_rejected)
    = Throw SendFailed /\
  fst (run (Rev2.sendAndConfirmTransaction 5 tx0 "acct" Confirmed "url") env_send_rejected)
    = Throw SendFailed.
Proof.
  split.
  - apply (proj1 (rejected_broadcast_ends_submission env_send_rejected 5 tx0 "payer" "acct"
                    Confirmed "url")
             [EvHeight 100] (mkTx [CallerInstruction 0; SetComputeUnitPrice 30000] (Some 200))
             []).
    vm_compute. reflexivity.
  - apply (proj2 (rejected_broadcast_ends_submission env_send_rejected 5 tx0 "payer" "acct"
                    Confirmed "url")
             [EvHeight 100] (mkTx [CallerInstruction 0; SetComputeUnitPrice 1500] (Some 150))
             []).
    vm_compute. reflexivity.
Defined.

Lemma rev2_without_last_valid_height_never_broadcasts_witness :
  lastValidBlockHeight (mkTx [CallerInstruction 0] None) = None /\
  trace (snd (run (Rev2.sendAndConfirmTransaction 3 (mkTx [CallerInstruction 0] None)
                     "acct" Confirmed "url") env_stuck))
    = [EvHeight 100; EvDirect None (DResult None)] /\
  fst (run (Rev2.sendAndConfirmTransaction 3 (mkTx [CallerInstruction 0] None)
              "acct" Confirmed "url") env_stuck) = Throw Expired.
Proof.
  split; [reflexivity|].
  apply (rev2_without_last_valid_height_never_broadcasts env_stuck 3
           (mkTx [CallerInstruction 0] None) "acct" Confirmed "url");
    [reflexivity | discriminate].
Defined.

Lemma rev2_resends_without_end_witness :
  fst (run (Rev2.sendAndConfirmTransaction 3 tx0 "acct" Confirmed "url") env_stuck)
    = OutOfFuel /\
  n_send (snd (run (Rev2.sendAndConfirmTransaction 3 tx0 "acct" Confirmed "url") env_stuck))
    = 3%nat /\
  n_height (snd (run (Rev2.sendAndConfirmTransaction 3 tx0 "acct" Confirmed "url") env_stuck))
    = 1%nat.
Proof.
  apply (rev2_resends_without_end env_stuck 3 tx0 "acct" Confirmed "url" 150).
  - reflexivity.
  - vm_compute. reflexivity.
  - intros k t. exists "sigA"%string. reflexivity.
  - intros k sg. reflexivity.
Defined.

Lemma by_address_decides_on_first_matching_entry_witness :
  Rev1.confirm_by_address (Some "sigB"%string)
    (AResult (Some (List.app [mkEntry "sigA"%string (Some "InstructionError"%string) (Some Finalized)]
                    [mkEntry "sigB"%string None (Some Confirmed)])))
  = Rev1.confirm_by_address (Some "sigB"%string)
      (AResult (Some [mkEntry "sigB"%string None (Some Confirmed)])).
Proof.
  apply (by_address_decides_on_first_matching_entry "sigB"
           [mkEntry "sigA"%string (Some "InstructionError"%string) (Some Finalized)]
           [mkEntry "sigB"%string None (Some Confirmed)]).
  constructor; [vm_compute; discriminate | constructor].
Defined.

Lemma details_from_first_answer_within_twenty_witness :
  Meteora.poll (fun k => if Nat.eqb k 3 then Some (Meteora.mkParsedTx None) else None)
    = Some (Meteora.mkParsedTx None).
Proof.
  apply (proj2 (details_from_first_answer_within_twenty
                  (fun k => if Nat.eqb k 3 then Some (Meteora.mkParsedTx None) else None)
                  (Meteora.mkParsedTx None))).
  exists 3%nat. split; [lia|]. split; [reflexivity|].
  intros i Hi. destruct (Nat.eqb_spec i 3); [lia | reflexivity].
Defined.

Lemma token_by_symbol_first_match_witness :
  Tokens.getTokenBySymbol lower (fun _ => true) token_list0 "usdc"
    = Tokens.TOk (Tokens.project usdc_raw).
Proof.
  apply (proj2 (token_by_symbol_first_match lower (fun _ => true) token_list0 "usdc"
                  (Tokens.project usdc_raw))).
  exists [Tokens.project sol_raw], [], "USDC"%string.
  split; [reflexivity|]. split; [reflexivity|]. split; [vm_compute; reflexivity|].
  split; [|reflexivity].
  constructor; [|constructor]. exists "SOL"%string. split; [reflexivity | vm_compute; discriminate].
Defined.

Lemma token_by_symbol_not_found_witness :
  Tokens.getTokenBySymbol lower (fun _ => true) token_list0 "BONK"
    = Tokens.TErr Tokens.NotFound.
Proof.
  apply (proj2 (token_by_symbol_not_found lower (fun _ => true) token_list0 "BONK")).
  exists [Tokens.project sol_raw; Tokens.project usdc_raw]. split; [reflexivity|].
  constructor; [|constructor; [|constructor]].
  - exists "SOL"%string. split; [reflexivity | vm_compute; discriminate].
  - exists "USDC"%string. split; [reflexivity | vm_compute; discriminate].
Defined.

Lemma token_by_address_local_first_match_witness :
  Tokens.address (Tokens.project usdc_raw)
    = Some "EPjFWdd5AufqSSqeM2qN1xzybapC8G4wEGGkZwyTDt1v"%string.
Proof.
  apply (token_by_address_local_first_match (fun _ => true) (fun _ => true) (fun _ => None)
           "devnet" token_list0 "EPjFWdd5AufqSSqeM2qN1xzybapC8G4wEGGkZwyTDt1v"
           (Tokens.project usdc_raw)).
  vm_compute. reflexivity.
Defined.

Lemma token_by_address_api_ignores_list_witness :
  Tokens.getTokenByAddress (fun _ => true) (fun _ => true) (fun _ => Some (Tokens.project sol_raw))
    "devnet" token_list0 "So11111111111111111111111111111111111111112" true
  = Tokens.TErr Tokens.ApiOnlyMainnet.
Proof.
  apply (proj2 (token_by_address_api_ignores_list (fun _ => true) (fun _ => true)
                  (fun _ => Some (Tokens.project sol_raw)) "devnet" token_list0 token_list0
                  "So11111111111111111111111111111111111111112")).
  vm_compute. discriminate.
Defined.

Lemma constructed_network_and_wallet_witness :
  env_devnet "SOLANA_NETWORK" = Some "devnet"%string /\
  ("devnet" = "mainnet-beta" \/ "devnet" = "devnet")%string /\
  exists p, config_wallet env_devnet "SOLANA_WALLET_JSON" = Some p /\ p <> EmptyString /\
            (fun _ : string => Some 7%nat) p = Some 7%nat.
Proof.
  apply (constructed_network_and_wallet nat config_wallet (fun s => s) (fun n => n)
           (fun _ => Some 7%nat) None env_devnet
           (Construct.mkController "devnet" "devnet" 7%nat (Tokens.loadTokenList None))).
  vm_compute. reflexivity.
Defined.

Lemma missing_token_list_finds_nothing_witness :
  Tokens.getTokenBySymbol lower (fun _ => true) (Tokens.loadTokenList None) "USDC"
    = Tokens.TErr Tokens.NotFound.
Proof.
  apply (proj1 (missing_token_list_finds_nothing nat config_wallet (fun s => s) (fun n => n)
                  (fun _ => Some 7%nat) env_devnet
                  (Construct.mkController "devnet" "devnet" 7%nat (Tokens.loadTokenList None))
                  lower (fun _ => true) (fun _ => true) (fun _ => None)
                  ltac:(vm_compute; reflexivity))).
Defined.

Lemma dlmm_created_address_never_recreated_witness :
  Dlmm.getDlmmPool (fun _ => true)
    (Dlmm.run_cache (fun _ => true) [Dlmm.Get "pool"%string; Dlmm.Settle 0 (@None nat)])
    "pool"
  = (Dlmm.FromPromise 0,
     Dlmm.run_cache (fun _ => true) [Dlmm.Get "pool"%string; Dlmm.Settle 0 (@None nat)]) \/
  exists p, Dlmm.getDlmmPool (fun _ => true)
    (Dlmm.run_cache (fun _ => true) [Dlmm.Get "pool"%string; Dlmm.Settle 0 (@None nat)])
    "pool"
  = (Dlmm.FromCache p,
     Dlmm.run_cache (fun _ => true) [Dlmm.Get "pool"%string; Dlmm.Settle 0 (@None nat)]).
Proof.
  apply (dlmm_created_address_never_recreated (fun _ => true)
           [Dlmm.Get "pool"%string; Dlmm.Settle 0 (@None nat)] 0 "pool").
  vm_compute. left. reflexivity.
Defined.

Lemma dlmm_cached_pool_kept_witness :
  Dlmm.dlmmPools
    (Dlmm.run_cache (fun _ => true)
       (List.app [Dlmm.Get "pool"%string; Dlmm.Settle 0 (Some 7%nat)]
        [Dlmm.Get "other"%string; Dlmm.Settle 1 (@None nat); Dlmm.Settle 0 (Some 8%nat)]))
    "pool" = Some 7%nat.
Proof.
  apply (dlmm_cached_pool_kept (fun _ => true)
           [Dlmm.Get "pool"%string; Dlmm.Settle 0 (Some 7%nat)]
           [Dlmm.Get "other"%string; Dlmm.Settle 1 (@None nat); Dlmm.Settle 0 (Some 8%nat)]).
  vm_compute. reflexivity.
Defined.

Lemma account_balance_change_nan_witness :
  Meteora.balanceChange
    (Meteora.extractAccountBalanceChangeAndFee
       (fun _ => Some (Meteora.mkParsedTx
                         (Some (Meteora.mkMeta (Some [5]) (Some [2]) None None (Some 5000)))))
       1) = None.
Proof.
  apply (proj2 (account_balance_change_nan
                  (fun _ => Some (Meteora.mkParsedTx
                                    (Some (Meteora.mkMeta (Some [5]) (Some [2]) None None
                                             (Some 5000)))))
                  1)).
  eexists. split; [reflexivity|]. left. vm_compute. lia.
Defined.


Lemma balance_with_symbols_names_requested_witness :
  exists r,
    Balance.getBalance (fun _ => "0") (fun _ _ => "1") (fun _ => true) token_list0 None
      (Some ["SOL"; "USDC"]) (Some 5000000000)
      (Some [Some ("EPjFWdd5AufqSSqeM2qN1xzybapC8G4wEGGkZwyTDt1v", 1500000); Some ("Other", 5)])
    = Balance.BOk r /\
    Forall (fun b => exists n, Balance.b_name b = Some n /\ In n ["SOL"; "USDC"]) r.
Proof.
  eexists. split; [vm_compute; reflexivity|].
  apply (proj2 (balance_with_symbols_names_requested (fun _ => "0") (fun _ _ => "1")
                  (fun _ => true) token_list0 None ["SOL"; "USDC"] (Some 5000000000)
                  (Some [Some ("EPjFWdd5AufqSSqeM2qN1xzybapC8G4wEGGkZwyTDt1v", 1500000);
                         Some ("Other", 5)]))).
  vm_compute. reflexivity.
Defined.

Lemma balance_unfiltered_rejects_unnamed_token_witness :
  Balance.getBalance (fun _ => "0") (fun _ _ => "1") (fun _ => true)
    (Tokens.mkTokenList (Some [usdc_raw; Tokens.mkRaw (Some "Mint1") None None None (Some 6) []]))
    None None (Some 5000000000) (Some (map Some [("Mint1", 10)]))
  = Balance.BErr Balance.ResponseMismatch.
Proof.
  apply (balance_unfiltered_rejects_unnamed_token (fun _ => "0") (fun _ _ => "1") (fun _ => true)
           (Tokens.mkTokenList (Some [usdc_raw; Tokens.mkRaw (Some "Mint1") None None None
                                                  (Some 6) []]))
           5000000000 [("Mint1", 10)]
           [Tokens.project usdc_raw;
            Tokens.project (Tokens.mkRaw (Some "Mint1") None None None (Some 6) [])]
           "Mint1" 10 (Tokens.project (Tokens.mkRaw (Some "Mint1") None None None (Some 6) []))).
  - reflexivity.
  - left. reflexivity.
  - vm_compute. reflexivity.
  - reflexivity.
Defined.
